(** * Hybrid context retrieval of the RAG API service

    A shallow embedding of [backend/rag_api_service/app.py]: the Python
    string primitives the service relies on, the graph store with the
    Cypher queries the service sends to it, the retrieval engine
    [retrieve_graph_context], the embedding gateway [generate_embeddings]
    and the HTTP endpoints with their error handlers.

    Conventions.
    - A Python [str] is a [string] whose characters are the code points
      below 256; [str.lower], [str.split] and [len] are the Python
      functions restricted to that range.  On that range [str.lower]
      keeps the length of a string; it does not on U+0130, so the keyword
      step, which measures a word before it lower-cases it, is modelled
      on strings that may hold that code point as well ([Unicode]).
    - A value that may be [None] in Python or [null] in Cypher is an
      [option].
    - A similarity score is a rational number: every finite double is one,
      and the service only compares scores.
    - The store is a list of nodes and relationships; a query is the
      function of the store that its Cypher text describes.  Where Cypher
      leaves the order of rows open (MATCH, ties under ORDER BY), the
      order of the lists is taken; no property below depends on it.
    - A run of the retrieval records what it does in a trace: the queries
      it sends and the sentences it writes, in order. *)

From Stdlib Require Import String Ascii List Bool Arith Lia.
From Stdlib Require Import QArith Sorted Permutation.
Import ListNotations.
Open Scope string_scope.
Open Scope nat_scope.

(** ** Python string primitives *)

Module Py.

(** [str.isspace] on one character: the characters [str.split()] cuts at. *)
Definition isspace (c : ascii) : bool :=
  let n := nat_of_ascii c in
  ((9 <=? n) && (n <=? 13)) || ((28 <=? n) && (n <=? 32))
  || (n =? 133) || (n =? 160).

(** [str.lower] on one character: A-Z and the accented capitals
    U+00C0..U+00DE (the multiplication sign U+00D7 apart) move up by 32. *)
Definition lower_char (c : ascii) : ascii :=
  let n := nat_of_ascii c in
  if ((65 <=? n) && (n <=? 90))
     || ((192 <=? n) && (n <=? 222) && negb (n =? 215))
  then ascii_of_nat (n + 32) else c.

(** [str.lower] on a string of code points below 256: one code point for
    each, so the length stays.  (Beyond that range it need not, see
    [Unicode].) *)
Fixpoint lower (s : string) : string :=
  match s with
  | EmptyString => EmptyString
  | String c s' => String (lower_char c) (lower s')
  end.

(** The token under construction is emitted unless it is empty. *)
Definition flush (cur : string) : list string :=
  match cur with
  | EmptyString => []
  | _ => [cur]
  end.

(** [str.split()] with no argument: cut at runs of whitespace, no empty
    token.  [cur] is the token read so far. *)
Fixpoint split_from (cur s : string) : list string :=
  match s with
  | EmptyString => flush cur
  | String c s' =>
      if isspace c then (flush cur ++ split_from EmptyString s')%list
      else split_from (cur ++ String c EmptyString) s'
  end.

Definition split (s : string) : list string := split_from EmptyString s.

(** [sep.join(parts)] *)
Definition join (sep : string) (parts : list string) : string :=
  String.concat sep parts.

(** [str(v)] inside an f-string: [None] prints as the word None. *)
Definition str (v : option string) : string :=
  match v with
  | Some s => s
  | None => "None"
  end.

(** Truth value of a value that is [None] or a string. *)
Definition truthy (v : option string) : bool :=
  match v with
  | Some EmptyString => false
  | Some _ => true
  | None => false
  end.

(** [s.replace(old, new)] for a non-empty [old]: occurrences are replaced
    from the left and do not overlap; [skip] counts the characters of the
    occurrence just replaced that are still to be dropped. *)
Fixpoint replace_from (old new : string) (skip : nat) (s : string) : string :=
  match s with
  | EmptyString => EmptyString
  | String c s' =>
      match skip with
      | S k => replace_from old new k s'
      | O =>
          if String.prefix old s
          then new ++ replace_from old new (String.length old - 1) s'
          else String c (replace_from old new 0 s')
      end
  end.

Definition replace (old new s : string) : string := replace_from old new 0 s.

Definition no_space (s : string) : bool :=
  forallb (fun c => negb (isspace c)) (list_ascii_of_string s).

(** The exceptions the service tells apart, by the class its [except]
    clauses and error handlers name; [OtherException] is any other
    subclass of [Exception]. *)
Inductive Exn :=
| Neo4jError (message : string)
| ConnectionError (message : string)
| GoogleAPIError (reason : string) (code : string)
| HTTPException (code : nat) (description : string)
| OtherException (text : string).

(** The text an exception carries: [e.message] of a [Neo4jError], the
    argument of a [ConnectionError] or of another exception, [e.reason]
    of a Google API error, [e.description] of an HTTP error.  For a
    [ConnectionError] and an [OtherException] it is [str(e)].  The
    library classes print more than it ([str(e)] of a Google API call
    error begins with its status code, that of a [Neo4jError] sent by the
    server names its code), which the model does not keep: where the code
    prints such an exception, the model has the text it carries. *)
Definition exn_text (e : Exn) : string :=
  match e with
  | Neo4jError message => message
  | ConnectionError message => message
  | GoogleAPIError reason _ => reason
  | HTTPException _ description => description
  | OtherException text => text
  end.

(** The result of a statement that may raise. *)
Inductive Outcome (A : Type) :=
| Ret (a : A)
| Raise (e : Exn).
Arguments Ret {A} a.
Arguments Raise {A} e.

End Py.

(** ** Keyword extraction (stage 4 of the retrieval) *)

Module Keywords.

Definition stop_words : list string :=
  ["the"; "and"; "for"; "with"; "what"; "how"; "why"; "where"; "when";
   "who"; "which"].

Definition is_stop_word (w : string) : bool :=
  existsb (String.eqb w) stop_words.

(** The two list comprehensions of [retrieve_graph_context]:
    [[word.lower() for word in user_query.split() if len(word) > 2]] and
    then [[word for word in keywords if word not in [...]]]. *)
Definition extract_keywords (user_query : string) : list string :=
  let keywords :=
    map Py.lower
        (filter (fun word => 2 <? String.length word) (Py.split user_query)) in
  filter (fun word => negb (is_stop_word word)) keywords.

(** The same two steps on a list of tokens, for the proofs. *)
Definition keywords_of_tokens (tokens : list string) : list string :=
  filter (fun word => negb (is_stop_word word))
         (map Py.lower (filter (fun word => 2 <? String.length word) tokens)).

End Keywords.

(** ** Keyword extraction on strings beyond Latin-1

    [str.lower] maps U+0130 (capital I with dot above) to two code
    points, the letter i followed by U+0307 (combining dot above), and
    every other code point to one.  The strings here are made of the code
    points below 256 and of these two; [isspace], [lower], [split] and
    [len] are Python's on them. *)

Module Unicode.

Inductive CodePoint :=
| Latin1 (c : ascii)
| U0130
| U0307.

(** [str.isspace] on one code point. *)
Definition isspace (c : CodePoint) : bool :=
  match c with
  | Latin1 a => Py.isspace a
  | U0130 => false
  | U0307 => false
  end.

(** [str.lower] on one code point. *)
Definition lower_cp (c : CodePoint) : list CodePoint :=
  match c with
  | Latin1 a => [Latin1 (Py.lower_char a)]
  | U0130 => [Latin1 "i"%char; U0307]
  | U0307 => [U0307]
  end.

Definition lower (s : list CodePoint) : list CodePoint := flat_map lower_cp s.

Definition flush (cur : list CodePoint) : list (list CodePoint) :=
  match cur with
  | [] => []
  | _ => [cur]
  end.

(** [str.split()] with no argument, as [Py.split_from]. *)
Fixpoint split_from (cur s : list CodePoint) : list (list CodePoint) :=
  match s with
  | [] => flush cur
  | c :: s' =>
      if isspace c then (flush cur ++ split_from [] s')%list
      else split_from (cur ++ [c])%list s'
  end.

Definition split (s : list CodePoint) : list (list CodePoint) :=
  split_from [] s.

(** [sep.join(parts)] *)
Fixpoint join (sep : list CodePoint) (parts : list (list CodePoint))
  : list CodePoint :=
  match parts with
  | [] => []
  | p :: rest =>
      match rest with
      | [] => p
      | _ => (p ++ sep ++ join sep rest)%list
      end
  end.

Definition no_space (s : list CodePoint) : bool :=
  forallb (fun c => negb (isspace c)) s.

Definition cp_eqb (a b : CodePoint) : bool :=
  match a, b with
  | Latin1 x, Latin1 y => Ascii.eqb x y
  | U0130, U0130 => true
  | U0307, U0307 => true
  | _, _ => false
  end.

(** Equality of two strings. *)
Fixpoint eqb (a b : list CodePoint) : bool :=
  match a, b with
  | [], [] => true
  | x :: a', y :: b' => cp_eqb x y && eqb a' b'
  | _, _ => false
  end.

(** A string of code points below 256 among these strings. *)
Definition of_string (s : string) : list CodePoint :=
  map Latin1 (list_ascii_of_string s).


Definition stop_words : list (list CodePoint) :=
  map of_string Keywords.stop_words.

Definition is_stop_word (w : list CodePoint) : bool :=
  existsb (eqb w) stop_words.

(** The two list comprehensions of [retrieve_graph_context]:
    [[word.lower() for word in user_query.split() if len(word) > 2]] and
    then [[word for word in keywords if word not in [...]]]. *)
Definition extract_keywords (user_query : list CodePoint)
  : list (list CodePoint) :=
  let keywords :=
    map lower (filter (fun word => 2 <? List.length word) (split user_query)) in
  filter (fun word => negb (is_stop_word word)) keywords.

(** The same two steps on a list of tokens, for the proofs. *)
Definition keywords_of_tokens (tokens : list (list CodePoint))
  : list (list CodePoint) :=
  filter (fun word => negb (is_stop_word word))
         (map lower (filter (fun word => 2 <? List.length word) tokens)).



End Unicode.

(** ** The graph store *)

Module Graph.
Import Py.

(** A node of the knowledge graph with the properties the queries read.
    [node_id] is the store's identity of the node: two nodes may agree on
    every property and still differ. *)
Record Node := mkNode {
  node_id : nat;
  labels : list string;
  name : option string;
  file_path : option string;
  path : option string;
  description : option string;
  context_sample : option string;
  repo_id : option string }.

Record Relationship := mkRel {
  start_node : Node;
  rel_type : string;
  end_node : Node }.

(** A path is the list of its nodes, [nodes(path)], start node first. *)
Definition Path := list Node.

(** The queries [retrieve_graph_context] sends, by the variable that holds
    their text; the per-file query carries its [$path] parameter. *)
Inductive Query :=
| function_query
| file_query
| traversal_query
| path_query
| name_query
| desc_query
| file_context_query
| file_entities_query (path : option string).

(** The configuration map given to [apoc.path.expandConfig]. *)
Record ExpandConfig := mkExpandConfig {
  relationshipFilter : list string;
  minLevel : nat;
  maxLevel : nat;
  uniqueness : string }.

(** A session on a store.  The three procedures the queries call belong to
    the database and its APOC library, so they are components of the
    session; [fault] says which query, if any, the store fails. *)
Record Session := mkSession {
  nodes : list Node;
  relationships : list Relationship;
  queryNodes : string -> nat -> list Q -> list (Node * Q);
  expandConfig : Node -> ExpandConfig -> list Path;
  allSimplePaths : Node -> Node -> nat -> list Path;
  fault : Query -> option Exn }.

End Graph.

(** ** The Cypher queries *)

Module Cypher.
Import Graph.

(** One record of [.data()] for the entity queries: the keys [name],
    [type], [filePath], [description] and [code]. *)
Record Row := mkRow {
  r_name : option string;
  r_type : option string;
  r_filePath : option string;
  r_description : option string;
  r_code : option string }.

Definition Row_eq_dec (a b : Row) : {a = b} + {a <> b}.
Proof. repeat decide equality. Defined.

Definition row_eqb (a b : Row) : bool :=
  if Row_eq_dec a b then true else false.

Section OrderBy.
Context {A : Type} (before : A -> A -> bool).

(** [ORDER BY]: insertion sort, [before x y] when [x] may stand before
    [y]; rows that compare equal keep their order. *)
Fixpoint insert (x : A) (l : list A) : list A :=
  match l with
  | [] => [x]
  | y :: l' => if before x y then x :: l else y :: insert x l'
  end.

Definition order_by (l : list A) : list A := fold_right insert [] l.
End OrderBy.

(** [RETURN DISTINCT]: the first occurrence of every row. *)
Fixpoint distinct (rows : list Row) : list Row :=
  match rows with
  | [] => []
  | r :: rows' => r :: filter (fun r' => negb (row_eqb r r')) (distinct rows')
  end.

Definition coalesce {A : Type} (a b : option A) : option A :=
  match a with
  | Some _ => a
  | None => b
  end.

Definition is_not_null {A : Type} (v : option A) : bool :=
  match v with
  | Some _ => true
  | None => false
  end.

(** [a = b] under a [WHERE] made of AND and OR only: a comparison with
    [null] is [null], which keeps no row, like [false]. *)
Definition eq_prop (a b : option string) : bool :=
  match a, b with
  | Some x, Some y => String.eqb x y
  | _, _ => false
  end.

Definition has_label (l : string) (n : Node) : bool :=
  existsb (String.eqb l) (labels n).

(** The columns [node.name AS name, labels(node)[0] as type, ... AS
    filePath, node.description as description, node.context_sample as
    code]. *)
Definition entity_row (node : Node) (filePath : option string) : Row :=
  {| r_name := name node;
     r_type := hd_error (labels node);
     r_filePath := filePath;
     r_description := description node;
     r_code := context_sample node |}.

(** The double written 0.6 in the queries. *)
Definition MIN_SCORE : Q := 5404319552844595 # 9007199254740992.

Definition above_min_score (score : Q) : bool := negb (Qle_bool score MIN_SCORE).

Definition score_desc (a b : Row * Q) : bool := Qle_bool (snd b) (snd a).

(** Scores never rise along the list. *)
Definition descending (rows : list (Row * Q)) : Prop :=
  StronglySorted (fun a b => (snd b <= snd a)%Q) rows.

(** [function_query] *)
Definition function_results (s : Session) (query_embedding : list Q)
  : list (Row * Q) :=
  order_by score_desc
    (map (fun hit => (entity_row (fst hit) (file_path (fst hit)), snd hit))
       (filter (fun hit => above_min_score (snd hit)
                           && is_not_null (file_path (fst hit)))
          (queryNodes s "function_index" 5 query_embedding))).

(** [file_query] of the vector stage *)
Definition file_results (s : Session) (query_embedding : list Q)
  : list (Row * Q) :=
  order_by score_desc
    (map (fun hit => (entity_row (fst hit) (path (fst hit)), snd hit))
       (filter (fun hit => above_min_score (snd hit))
          (queryNodes s "file_index" 5 query_embedding))).

(** [split(entityId, '-')]: every occurrence of the delimiter cuts, so
    the result may hold empty strings and is never empty. *)
Fixpoint split (delim : ascii) (s : string) : list string :=
  match s with
  | EmptyString => [EmptyString]
  | String c s' =>
      if Ascii.eqb c delim then EmptyString :: split delim s'
      else match split delim s' with
           | t :: ts => String c t :: ts
           | [] => [String c EmptyString]
           end
  end.

(** A string in which the character [d] does not occur. *)
Definition free_of (d : ascii) (s : string) : bool :=
  forallb (fun c => negb (Ascii.eqb c d)) (list_ascii_of_string s).

(** [WHERE (start:Function AND start.name = name AND start.file_path =
    filePath) OR (start:File AND start.path = filePath)] *)
Definition start_matches (nm filePath : option string) (start : Node) : bool :=
  (has_label "Function" start && eq_prop (name start) nm
   && eq_prop (file_path start) filePath)
  || (has_label "File" start && eq_prop (path start) filePath).

(** [UNWIND $entityIds AS entityId WITH split(entityId, '-')[0] AS name,
    split(entityId, '-')[1] AS filePath MATCH (start) WHERE ...]: an index
    past the end of the list gives [null]. *)
Definition traversal_starts (s : Session) (entityIds : list string)
  : list Node :=
  flat_map (fun entityId =>
              let parts := split "-" entityId in
              filter (start_matches (nth_error parts 0) (nth_error parts 1))
                     (nodes s))
           entityIds.

Definition traversal_config : ExpandConfig :=
  {| relationshipFilter :=
       ["CALLS"; "USES"; "DEFINES"; "CONTAINS"; "IMPORTS"; "DEPENDS_ON";
        "READS_FROM"; "WRITES_TO"];
     minLevel := 1;
     maxLevel := 2;
     uniqueness := "NODE_GLOBAL" |}.

(** [last(nodes(path))] *)
Definition last_node (p : Path) : option Node := hd_error (rev p).

(** [node <> start] compares the nodes, not their properties. *)
Definition same_node (a b : Node) : bool := node_id a =? node_id b.

(** [CALL apoc.path.expandConfig(start, {...}) YIELD path WITH
    last(nodes(path)) AS node, start WHERE node <> start]: the pairs
    (node, start) that pass. *)
Definition traversal_reached (s : Session) (entityIds : list string)
  : list (Node * Node) :=
  flat_map (fun start =>
              flat_map (fun p =>
                          match last_node p with
                          | Some node =>
                              if same_node node start then []
                              else [(node, start)]
                          | None => []
                          end)
                       (expandConfig s start traversal_config))
           (traversal_starts s entityIds).

Definition reached_row (node : Node) : Row :=
  entity_row node (coalesce (file_path node) (path node)).

(** [traversal_query] *)
Definition traversal_results (s : Session) (entityIds : list string)
  : list Row :=
  firstn 20
    (distinct (map (fun hit => reached_row (fst hit))
                   (traversal_reached s entityIds))).

(** [MATCH (a), (b) WHERE a.name = $entity1 AND b.name = $entity2] *)
Definition path_ends (s : Session) (entity1 entity2 : option string)
  : list (Node * Node) :=
  flat_map (fun a =>
              map (fun b => (a, b))
                  (filter (fun b => eq_prop (name b) entity2) (nodes s)))
           (filter (fun a => eq_prop (name a) entity1) (nodes s)).

(** [length(path)]: the number of relationships. *)
Definition path_length (p : Path) : nat := List.length p - 1.

Definition shorter (p q : Path) : bool := path_length p <=? path_length q.

(** [CALL apoc.algo.allSimplePaths(a, b, null, 3) YIELD path] for every
    pair of ends. *)
Definition path_candidates (s : Session) (entity1 entity2 : option string)
  : list Path :=
  flat_map (fun ab => allSimplePaths s (fst ab) (snd ab) 3)
           (path_ends s entity1 entity2).

(** [... WITH path, length(path) AS length ORDER BY length ASC LIMIT 3] *)
Definition shortest_paths (s : Session) (entity1 entity2 : option string)
  : list Path :=
  firstn 3 (order_by shorter (path_candidates s entity1 entity2)).

(** What the documentation of [apoc.algo.allSimplePaths] promises of a
    path from [a] to [b] within [depth] relationships: it starts at [a],
    ends at [b], visits no node twice and is no longer than [depth]. *)
Definition simple_path (p : Path) : Prop := NoDup (map node_id p).

Definition joins (a b : Node) (p : Path) : Prop :=
  option_map node_id (hd_error p) = Some (node_id a)
  /\ option_map node_id (last_node p) = Some (node_id b).

Definition keeps_contract (s : Session) : Prop :=
  forall a b depth p,
    In p (allSimplePaths s a b depth) ->
    joins a b p /\ simple_path p /\ path_length p <= depth.

(** [path_query] *)
Definition path_results (s : Session) (entity1 entity2 : option string)
  : list Row :=
  distinct (map reached_row (concat (shortest_paths s entity1 entity2))).

(** [s CONTAINS sub] *)
Fixpoint contains (s sub : string) : bool :=
  String.prefix sub s
  || match s with
     | EmptyString => false
     | String _ s' => contains s' sub
     end.

(** [ANY(keyword IN $keywords WHERE toLower(n.field) CONTAINS keyword)];
    [toLower] of [null] is [null] and matches nothing. *)
Definition keyword_hit (field : Node -> option string)
  (keywords : list string) (n : Node) : bool :=
  existsb (fun keyword =>
             match field n with
             | Some v => contains (Py.lower v) keyword
             | None => false
             end)
          keywords.

Definition keyword_results (field : Node -> option string) (s : Session)
  (keywords : list string) : list Row :=
  firstn 5 (map (fun n => entity_row n (file_path n))
                (filter (keyword_hit field keywords) (nodes s))).

(** [name_query] and [desc_query] *)
Definition name_results := keyword_results name.
Definition desc_results := keyword_results description.

(** One record of the file query of stage 5: [path], [repoId] and
    [fileLabels]. *)
Record FileRow := mkFileRow {
  f_path : option string;
  f_repoId : option string;
  f_fileLabels : list string }.

Definition file_kinds : list string :=
  ["File"; "SourceFile"; "PythonModule"; "JavaScriptModule"; "CobolProgram";
   "SasProgram"; "JclJob"; "FlinkJob"; "DataFile"; "CppFile";
   "FortranProgram"; "PliProgram"; "AssemblyFile"; "RpgProgram"].

(** [v IN $list] *)
Definition in_list (v : option string) (l : list string) : bool :=
  match v with
  | Some x => existsb (String.eqb x) l
  | None => false
  end.

(** [file_query] of stage 5 *)
Definition file_context_results (s : Session) (filePaths : list string)
  : list FileRow :=
  map (fun f => {| f_path := coalesce (path f) (file_path f);
                   f_repoId := repo_id f;
                   f_fileLabels := labels f |})
      (filter (fun f => existsb (fun l => has_label l f) file_kinds
                        && (in_list (path f) filePaths
                            || in_list (file_path f) filePaths))
              (nodes s)).

(** One record of [file_entities_query]: [name] and [type]. *)
Record ChildRow := mkChildRow {
  c_name : option string;
  c_type : option string }.

(** [file_entities_query]: [MATCH (f)-[:CONTAINS]->(e) WHERE f.path = $path
    OR f.file_path = $path RETURN ... LIMIT 8] *)
Definition file_entities_results (s : Session) (p : option string)
  : list ChildRow :=
  firstn 8
    (map (fun r => {| c_name := name (end_node r);
                      c_type := hd_error (labels (end_node r)) |})
         (filter (fun r => String.eqb (rel_type r) "CONTAINS"
                           && (eq_prop (path (start_node r)) p
                               || eq_prop (file_path (start_node r)) p))
                 (relationships s))).

End Cypher.

(** ** The retrieval engine *)

Module Engine.
Import Py Graph Cypher.

(** Records written at warning level and above; the informational records
    are left out. *)
Inductive LogEntry :=
| LogWarning (msg : string)
| LogError (msg : string).

(** What the function does to the outside and to its evidence list, in
    the order it does it: a query sent to the store, a sentence appended
    to [context]. *)
Inductive Event :=
| Sent (q : Query)
| Wrote (sentence : string).

(** What a run of the [try] block changes: the evidence list [context],
    the log, and the trace of what was done so far. *)
Record State := mkState {
  context : list string;
  log : list LogEntry;
  trace : list Event }.

(** The queries sent and the sentences written along a trace. *)
Definition queries (events : list Event) : list Query :=
  flat_map (fun ev => match ev with
                      | Sent q => [q]
                      | Wrote _ => []
                      end) events.

Definition sentences (events : list Event) : list string :=
  flat_map (fun ev => match ev with
                      | Sent _ => []
                      | Wrote sentence => [sentence]
                      end) events.

Definition initial : State := mkState [] [] [].

(** Statements that change the state and may raise. *)
Definition M (A : Type) : Type := State -> State * Outcome A.

Definition ret {A : Type} (a : A) : M A := fun st => (st, Ret a).

Definition raise {A : Type} (e : Exn) : M A := fun st => (st, Raise e).

Definition bind {A B : Type} (m : M A) (k : A -> M B) : M B :=
  fun st =>
    match m st with
    | (st', Ret a) => k a st'
    | (st', Raise e) => (st', Raise e)
    end.

Notation "x <- m ;; k" := (bind m (fun x => k))
  (at level 61, m at next level, right associativity).
Notation "m ;; k" := (bind m (fun _ => k))
  (at level 61, right associativity).

(** [context.append(sentence)] *)
Definition append (sentence : string) : M unit :=
  fun st => (mkState (context st ++ [sentence])%list (log st)
                     (trace st ++ [Wrote sentence])%list,
             Ret tt).

(** [session.run(q, ...).data()]: the query is sent; the store fails it or
    answers with [rows]. *)
Definition run {A : Type} (s : Session) (q : Query) (rows : A) : M A :=
  fun st =>
    let st' := mkState (context st) (log st) (trace st ++ [Sent q])%list in
    match fault s q with
    | Some e => (st', Raise e)
    | None => (st', Ret rows)
    end.

(** [for x in l: body] *)
Fixpoint for_each {A : Type} (l : list A) (body : A -> M unit) : M unit :=
  match l with
  | [] => ret tt
  | x :: l' => body x ;; for_each l' body
  end.

(** [v.lower()]: raises AttributeError on [None]. *)
Definition lower_of (v : option string) : M string :=
  match v with
  | Some t => ret (Py.lower t)
  | None => raise (OtherException "'NoneType' object has no attribute 'lower'")
  end.

Definition nl : string := String (ascii_of_nat 10) EmptyString.

(** The fenced code block that ends a sentence whose row has a code
    sample. *)
Definition with_code (sentence : string) (code_sample : option string)
  : string :=
  if Py.truthy code_sample
  then sentence ++ nl ++ "Code:" ++ nl ++ "```" ++ nl
       ++ Py.str code_sample ++ nl ++ "```"
  else sentence.

(** The sentence of the vector, traversal and path stages; [lead] is what
    the stage writes before it. *)
Definition in_file_sentence (lead : string) (res : Row) : M unit :=
  let entity_type := r_type res in
  let file_path := r_filePath res in
  let description := r_description res in
  let code_sample := r_code res in
  t <- lower_of entity_type ;;
  append (with_code (lead ++ "In file '" ++ Py.str file_path
                     ++ "', there is a " ++ t ++ " called '"
                     ++ Py.str (r_name res) ++ "'. " ++ Py.str description)
                    code_sample).

(** The sentence of the keyword search by name. *)
Definition name_sentence (res : Row) : M unit :=
  let entity_type := r_type res in
  let description := r_description res in
  let code_sample := r_code res in
  t <- lower_of entity_type ;;
  append (with_code ("Found a " ++ t ++ " named '" ++ Py.str (r_name res)
                     ++ "' in '" ++ Py.str (r_filePath res)
                     ++ "' that matches your query. " ++ Py.str description)
                    code_sample).

(** The sentence of the keyword search by description. *)
Definition desc_sentence (res : Row) : M unit :=
  let entity_type := r_type res in
  let description := r_description res in
  let code_sample := r_code res in
  t <- lower_of entity_type ;;
  append (with_code ("The " ++ t ++ " '" ++ Py.str (r_name res)
                     ++ "' in '" ++ Py.str (r_filePath res)
                     ++ "' appears relevant to your question. "
                     ++ Py.str description)
                    code_sample).

(** Stage 1: both index queries, then one sentence per merged result. *)
Definition vector_stage (s : Session) (query_embedding : list Q)
  : M (list (Row * Q)) :=
  function_results <- run s function_query
                          (Cypher.function_results s query_embedding) ;;
  file_results <- run s file_query (Cypher.file_results s query_embedding) ;;
  let entity_results := (function_results ++ file_results)%list in
  for_each entity_results (fun res => in_file_sentence "" (fst res)) ;;
  ret entity_results.

(** [[f"{res['name']}-{res['filePath']}" for res in entity_results]] *)
Definition entity_ids (entity_results : list (Row * Q)) : list string :=
  map (fun res => Py.str (r_name (fst res)) ++ "-"
                  ++ Py.str (r_filePath (fst res)))
      entity_results.

(** Stage 2 *)
Definition traversal_stage (s : Session) (entity_results : list (Row * Q))
  : M unit :=
  match entity_results with
  | [] => ret tt
  | _ =>
      traversal_results <- run s traversal_query
        (Cypher.traversal_results s (entity_ids entity_results)) ;;
      for_each traversal_results (in_file_sentence "Via graph traversal: ")
  end.

(** Stage 3 *)
Definition path_stage (s : Session) (entity_results : list (Row * Q))
  : M unit :=
  if 2 <=? List.length entity_results then
    let top_entities := map (fun res => r_name (fst res))
                            (firstn 2 entity_results) in
    path_results <- run s path_query
      (Cypher.path_results s (nth 0 top_entities None)
                           (nth 1 top_entities None)) ;;
    for_each path_results (in_file_sentence "Via path connection: ")
  else ret tt.

(** Stage 4 *)
Definition keyword_stage (s : Session) (user_query : string) : M unit :=
  let keywords := Keywords.extract_keywords user_query in
  match keywords with
  | [] => ret tt
  | _ =>
      name_results <- run s name_query (Cypher.name_results s keywords) ;;
      for_each name_results name_sentence ;;
      desc_results <- run s desc_query (Cypher.desc_results s keywords) ;;
      for_each desc_results desc_sentence
  end.

(** The file type shown for a file: its first label other than [File],
    with the generic words cut out. *)
Definition file_type_of (file_labels : list string) : string :=
  match find (fun label => negb (String.eqb label "File")) file_labels with
  | Some label =>
      Py.replace "Job" ""
        (Py.replace "Module" ""
           (Py.replace "Program" "" (Py.replace "File" "" label)))
  | None => "file"
  end.

(** The loop that fills [entities_info]. *)
Fixpoint entities_info (file_entities : list ChildRow) : M (list string) :=
  match file_entities with
  | [] => ret []
  | e :: rest =>
      e_type <- lower_of (c_type e) ;;
      let e_name := c_name e in
      info <- entities_info rest ;;
      ret (if Py.truthy e_name
           then (e_type ++ " '" ++ Py.str e_name ++ "'") :: info
           else info)
  end.

(** The body of the loop over the files of stage 5. *)
Definition file_sentences (s : Session) (res : FileRow) : M unit :=
  let file_type := file_type_of (f_fileLabels res) in
  append ("The " ++ Py.lower file_type ++ " file '" ++ Py.str (f_path res)
          ++ "' is part of repository '" ++ Py.str (f_repoId res) ++ "'.") ;;
  file_entities <- run s (file_entities_query (f_path res))
                       (Cypher.file_entities_results s (f_path res)) ;;
  match file_entities with
  | [] => ret tt
  | _ =>
      info <- entities_info file_entities ;;
      match info with
      | [] => ret tt
      | _ => append ("The file '" ++ Py.str (f_path res) ++ "' contains: "
                     ++ Py.join ", " info ++ ".")
      end
  end.

(** The distinct non-empty [filePath] values of the vector results. *)
Definition file_paths_of (entity_results : list (Row * Q)) : list string :=
  nodup string_dec
        (flat_map (fun res => if Py.truthy (r_filePath (fst res))
                              then [Py.str (r_filePath (fst res))] else [])
                  entity_results).

(** Stage 5 *)
Definition file_context_stage (s : Session) (entity_results : list (Row * Q))
  : M unit :=
  match entity_results with
  | [] => ret tt
  | _ =>
      match file_paths_of entity_results with
      | [] => ret tt
      | file_paths =>
          file_results <- run s file_context_query
                              (Cypher.file_context_results s file_paths) ;;
          for_each file_results (file_sentences s)
      end
  end.

(** The body of the [try] statement. *)
Definition try_body (s : Session) (query_embedding : list Q)
  (user_query : string) : M unit :=
  entity_results <- vector_stage s query_embedding ;;
  traversal_stage s entity_results ;;
  path_stage s entity_results ;;
  keyword_stage s user_query ;;
  file_context_stage s entity_results.

(** The two [except] clauses: the error is logged and nothing is raised. *)
Definition error_record (e : Exn) : LogEntry :=
  match e with
  | Neo4jError message =>
      LogError ("Neo4j Cypher error during context retrieval: " ++ message)
  | _ =>
      LogError ("An unexpected error occurred during context retrieval: "
                ++ exn_text e)
  end.

Definition except (st : State) (e : Exn) : State :=
  mkState (context st) (log st ++ [error_record e])%list (trace st).

(** The state when the [try] statement is left. *)
Definition run_retrieval (s : Session) (query_embedding : list Q)
  (user_query : string) : State :=
  match try_body s query_embedding user_query initial with
  | (st, Ret _) => st
  | (st, Raise e) => except st e
  end.

Definition NO_CONTEXT : string := "No specific context found in the graph.".

(** What the function returns for an evidence list. *)
Definition assemble (context : list string) : string :=
  match context with
  | [] => NO_CONTEXT
  | _ => Py.join nl context
  end.

Definition retrieve_graph_context (s : Session) (query_embedding : list Q)
  (user_query : string) : string :=
  assemble (context (run_retrieval s query_embedding user_query)).

(** *** Notions used to state the properties *)

(** The same store when it answers every query. *)
Definition healthy (s : Session) : Session :=
  {| nodes := nodes s;
     relationships := relationships s;
     queryNodes := queryNodes s;
     expandConfig := expandConfig s;
     allSimplePaths := allSimplePaths s;
     fault := fun _ => None |}.

Definition answered (s : Session) (q : Query) : Prop := fault s q = None.

(** An event a statement may add: a query among [allowed], or a sentence
    that is not empty. *)
Definition permitted (allowed : Query -> Prop) (ev : Event) : Prop :=
  match ev with
  | Sent q => allowed q
  | Wrote sentence => sentence <> ""
  end.

(** [st'] continues [st]: permitted events were added to the trace, their
    sentences to the evidence, and nothing was logged. *)
Definition extends_by (allowed : Query -> Prop) (st st' : State) : Prop :=
  exists events,
    trace st' = (trace st ++ events)%list
    /\ Forall (permitted allowed) events
    /\ context st' = (context st ++ sentences events)%list
    /\ log st' = log st.

Definition any_query : Query -> Prop := fun _ => True.

Definition no_query : Query -> Prop := fun _ => False.

(** A statement that only continues the state it starts from. *)
Definition sends {A : Type} (allowed : Query -> Prop) (m : M A) : Prop :=
  forall st, extends_by allowed st (fst (m st)).

(** The result [r] of a statement on the store [s], next to the result
    [r'] of the same statement on the healthy store, both from [st]:
    either every query sent was answered and the results agree, or the
    last thing done was to send a query that was failed, its error is
    raised, and [r'] continues [r]. *)
Definition related {A : Type} (s : Session) (st : State)
  (r r' : State * Outcome A) : Prop :=
  (r = r' /\ exists events, trace (fst r) = (trace st ++ events)%list
                            /\ Forall (answered s) (queries events))
  \/ (exists events q e,
         snd r = Raise e /\ fault s q = Some e
         /\ trace (fst r) = (trace st ++ events ++ [Sent q])%list
         /\ Forall (answered s) (queries events)
         /\ extends_by any_query (fst r) (fst r')).

Definition simulates {A : Type} (s : Session) (m h : M A) : Prop :=
  forall st, related s st (m st) (h st).

End Engine.

(** ** The embedding gateway *)

Module Embedding.
Import Py Engine.

(** What a call leaves behind: the texts sent to the provider and the
    records logged. *)
Record Trace := mkTrace {
  provider_calls : list string;
  records : list LogEntry }.

(** A text made of whitespace only (the empty text included). *)
Definition blank (text : string) : bool :=
  forallb isspace (list_ascii_of_string text).

(** [generate_embeddings]; [provider text] is the outcome of
    [embedding_model.get_embeddings([text])[0].values]. *)
Definition generate_embeddings (provider : string -> Outcome (list Q))
  (text : string) (tr : Trace) : Trace * Outcome (list Q) :=
  match text with
  | EmptyString =>
      (mkTrace (provider_calls tr)
               (records tr
                ++ [LogWarning "Attempted to generate embedding for empty text."])%list,
       Ret [])
  | _ =>
      let sent := mkTrace (provider_calls tr ++ [text])%list (records tr) in
      match provider text with
      | Ret values => (sent, Ret values)
      | Raise e =>
          (mkTrace (provider_calls sent)
                   (records sent
                    ++ [LogError ("Vertex AI embedding model error: "
                                  ++ exn_text e)])%list,
           Raise e)
      end
  end.

End Embedding.

(** ** The HTTP endpoints *)

Module Api.
Import Py Graph Engine.

Inductive Json :=
| JString (s : string)
| JNumber (n : nat)
| JBool (b : bool).

(** A response: the JSON object given to [jsonify], key by key, and the
    status code. *)
Record Response := mkResponse {
  body : list (string * Json);
  status : nat }.

Definition keys (r : Response) : list string := map fst (body r).

(** *** The error handlers *)

Definition handle_bad_request (description : string) : Response :=
  mkResponse [("status", JNumber 400);
              ("message", JString ("Bad Request: " ++ description));
              ("error_type", JString "BadRequest")] 400.

Definition handle_not_found : Response :=
  mkResponse [("status", JNumber 404);
              ("message",
               JString "Not Found: The requested resource does not exist.");
              ("error_type", JString "NotFound")] 404.

Definition handle_db_connection_error : Response :=
  mkResponse [("status", JNumber 500);
              ("message",
               JString "Internal Server Error: Could not connect to the database. Please try again later.");
              ("error_type", JString "DatabaseConnectionError")] 500.

Definition handle_google_api_error (reason : string) : Response :=
  mkResponse [("status", JNumber 500);
              ("message",
               JString ("Internal Server Error: Google Cloud API issue. Reason: "
                        ++ reason ++ ". Please check API permissions/quotas."));
              ("error_type", JString "GoogleAPIError")] 500.

Definition handle_generic_error : Response :=
  mkResponse [("status", JNumber 500);
              ("message",
               JString "Internal Server Error: An unexpected error occurred. Please try again or contact support.");
              ("error_type", JString "InternalServerError")] 500.

(** The handler Flask picks for an exception that leaves a view: the one
    registered for its status code or for its nearest class. *)
Definition handle_exception (e : Exn) : Response :=
  match e with
  | HTTPException code description =>
      if code =? 400 then handle_bad_request description
      else if code =? 404 then handle_not_found
      else handle_generic_error
  | ConnectionError _ => handle_db_connection_error
  | GoogleAPIError reason _ => handle_google_api_error reason
  | _ => handle_generic_error
  end.

(** *** The collaborators *)

Inductive Driver :=
| Connected (session : Session)
| Unavailable
| Broken.

Record Message := mkMessage {
  role : option string;
  content : option string }.

Record Data := mkData {
  query : option string;
  history : list Message }.

(** The world an endpoint runs in.  [generate] is
    [generative_model.generate_content(prompt, ...).text] as a function of
    the three values the prompt is built from; [capitalize] is Python's
    [str.capitalize]. *)
Record Env := mkEnv {
  driver : Driver;
  verify_connectivity : option Exn;
  provider : string -> Outcome (list Q);
  generate : string -> string -> string -> Outcome string;
  capitalize : string -> string;
  delete_relationships : option Exn;
  delete_nodes : option Exn }.

(** [get_neo4j_driver]: whatever goes wrong is raised as
    [ConnectionError]. *)
Definition get_neo4j_driver (env : Env) : Outcome Session :=
  match driver env with
  | Connected session => Ret session
  | Unavailable => Raise (ConnectionError "Failed to connect to Neo4j database.")
  | Broken =>
      Raise (ConnectionError "Failed to initialize Neo4j database driver.")
  end.

Definition bind {A B : Type} (o : Outcome A) (k : A -> Outcome B) : Outcome B :=
  match o with
  | Ret a => k a
  | Raise e => Raise e
  end.

Notation "x <- o ;;; k" := (bind o (fun x => k))
  (at level 61, o at next level, right associativity).

(** [conversation_history[-5:]] *)
Definition last_five (l : list Message) : list Message :=
  skipn (List.length l - 5) l.

(** The loop that writes [conversation_context]; [role.capitalize()]
    raises on [None]. *)
Fixpoint conversation_lines (env : Env) (msgs : list Message)
  : Outcome string :=
  match msgs with
  | [] => Ret EmptyString
  | msg :: rest =>
      match role msg with
      | None =>
          Raise (OtherException
                   "'NoneType' object has no attribute 'capitalize'")
      | Some r =>
          lines <- conversation_lines env rest ;;;
          Ret (capitalize env r ++ ": " ++ Py.str (content msg) ++ nl ++ lines)
      end
  end.

Definition conversation_context (env : Env) (conversation_history : list Message)
  : Outcome string :=
  match conversation_history with
  | [] => Ret EmptyString
  | _ =>
      lines <- conversation_lines env (last_five conversation_history) ;;;
      Ret ("Previous conversation:" ++ nl ++ lines)
  end.

(** *** The views *)

Definition raise_if (failure : option Exn) : Outcome unit :=
  match failure with
  | Some e => Raise e
  | None => Ret tt
  end.

(** [chat_with_graph]; [request_json] is the outcome of reading
    [request.json].  Each [except] clause of the view raises again, so an
    exception leaves the view as it is. *)
Definition chat_with_graph (env : Env) (request_json : Outcome Data)
  : Outcome Response :=
  data <- request_json ;;;
  let user_query := query data in
  let conversation_history := history data in
  if negb (Py.truthy user_query)
  then Ret (mkResponse [("response", JString "Please provide a query.")] 400)
  else
    session <- get_neo4j_driver env ;;;
    query_embedding <- snd (Embedding.generate_embeddings
                              (provider env) (Py.str user_query)
                              (Embedding.mkTrace [] [])) ;;;
    match query_embedding with
    | [] =>
        Ret (mkResponse
               [("response",
                 JString "Could not generate embeddings for your query. Please try again.");
                ("context_used", JString "")] 500)
    | _ =>
        let graph_context :=
          retrieve_graph_context session query_embedding (Py.str user_query) in
        context <- conversation_context env conversation_history ;;;
        text <- generate env context (Py.str user_query) graph_context ;;;
        Ret (mkResponse [("response", JString text);
                         ("context_used", JString graph_context)] 200)
    end.

(** [health_check] *)
Definition health_check (env : Env) : Outcome Response :=
  let attempt :=
    _ <- get_neo4j_driver env ;;;
    _ <- raise_if (verify_connectivity env) ;;;
    match provider env "health check test" with
    | Raise ve =>
        Ret (mkResponse
               [("status", JString "ERROR");
                ("message",
                 JString ("Vertex AI embeddings service unavailable: "
                          ++ exn_text ve))] 503)
    | Ret _ =>
        Ret (mkResponse
               [("status", JString "OK");
                ("message",
                 JString "Service is healthy and connected to dependencies.")]
               200)
    end in
  match attempt with
  | Ret r => Ret r
  | Raise (ConnectionError message) =>
      Ret (mkResponse
             [("status", JString "ERROR");
              ("message",
               JString ("Neo4j database connection failed: " ++ message))] 503)
  | Raise e =>
      Ret (mkResponse
             [("status", JString "ERROR");
              ("message",
               JString ("Unexpected health check error: " ++ exn_text e))] 500)
  end.

(** [clear_database] *)
Definition clear_database (env : Env) : Outcome Response :=
  let attempt :=
    _ <- get_neo4j_driver env ;;;
    _ <- raise_if (delete_relationships env) ;;;
    _ <- raise_if (delete_nodes env) ;;;
    Ret (mkResponse [("success", JBool true);
                     ("message", JString "Database cleared successfully")] 200) in
  match attempt with
  | Ret r => Ret r
  | Raise (ConnectionError message) => Raise (ConnectionError message)
  | Raise (Neo4jError message) =>
      Ret (mkResponse [("success", JBool false);
                       ("message", JString ("Database error: " ++ message))] 500)
  | Raise e =>
      Ret (mkResponse [("success", JBool false);
                       ("message", JString ("Unexpected error: " ++ exn_text e))]
                      500)
  end.

(** A request: one of the three routes, or one that Flask rejects before
    any view with an HTTP error. *)
Inductive Request :=
| PostChat (request_json : Outcome Data)
| GetHealthz
| PostClearDatabase
| Rejected (code : nat) (description : string).

(** What the application answers: the view's response, or the response of
    the handler of the exception that left the view. *)
Definition serve (env : Env) (req : Request) : Response :=
  let view :=
    match req with
    | PostChat request_json => chat_with_graph env request_json
    | GetHealthz => health_check env
    | PostClearDatabase => clear_database env
    | Rejected code description => Raise (HTTPException code description)
    end in
  match view with
  | Ret r => r
  | Raise e => handle_exception e
  end.

(** The generic error envelope. *)
Definition is_envelope (r : Response) : Prop :=
  keys r = ["status"; "message"; "error_type"]
  /\ In (status r) [400; 404; 500]
  /\ nth_error (body r) 0 = Some ("status", JNumber (status r)).

(** The body of a request served well, by route. *)
Definition success_shape (req : Request) (r : Response) : Prop :=
  status r = 200
  /\ match req with
     | PostChat _ => keys r = ["response"; "context_used"]
     | GetHealthz => keys r = ["status"; "message"]
     | PostClearDatabase => keys r = ["success"; "message"]
     | Rejected _ _ => False
     end.

Definition missing_query_response : Response :=
  mkResponse [("response", JString "Please provide a query.")] 400.

Definition no_embedding_response : Response :=
  mkResponse
    [("response",
      JString "Could not generate embeddings for your query. Please try again.");
     ("context_used", JString "")] 500.

End Api.

(** ** Reference behaviour of the store's procedures

    The example stores below answer [apoc.path.expandConfig] and
    [apoc.algo.allSimplePaths] as the APOC documentation describes them, on
    the relationships of the store. *)

Module Reference.
Import Graph Cypher.

(** The nodes one relationship away from [n], both directions, over the
    relationship types allowed ([None]: all of them). *)
Definition neighbours (rels : list Relationship)
  (types : option (list string)) (n : Node) : list Node :=
  flat_map (fun r =>
              let allowed := match types with
                             | Some ts => existsb (String.eqb (rel_type r)) ts
                             | None => true
                             end in
              if negb allowed then []
              else if same_node (start_node r) n then [end_node r]
              else if same_node (end_node r) n then [start_node r]
              else [])
           rels.

Definition visited_in (seen : list nat) (n : Node) : bool :=
  existsb (Nat.eqb (node_id n)) seen.

(** One step of a breadth-first level: the paths in [frontier] grown by one
    relationship to nodes not seen before. *)
Fixpoint grow (rels : list Relationship) (types : option (list string))
  (seen : list nat) (frontier : list Path) : list Path * list nat :=
  match frontier with
  | [] => ([], seen)
  | p :: rest =>
      let fresh :=
        match last_node p with
        | Some n => neighbours rels types n
        | None => []
        end in
      let step :=
        fold_left (fun acc m =>
                     if visited_in (snd acc) m then acc
                     else ((fst acc ++ [p ++ [m]])%list, node_id m :: snd acc))
                  fresh ([], seen) in
      let others := grow rels types (snd step) rest in
      ((fst step ++ fst others)%list, snd others)
  end.

(** [apoc.path.expandConfig] breadth first with uniqueness NODE_GLOBAL:
    every node is reached by at most one path; the paths of [minLevel] to
    [maxLevel] relationships are returned. *)
Fixpoint levels (rels : list Relationship) (types : option (list string))
  (n : nat) (seen : list nat) (frontier : list Path) : list Path :=
  match n with
  | O => []
  | S n' =>
      let next := grow rels types seen frontier in
      (fst next ++ levels rels types n' (snd next) (fst next))%list
  end.

Definition expand (rels : list Relationship) (start : Node)
  (config : ExpandConfig) : list Path :=
  filter (fun p => minLevel config <=? path_length p)
         (levels rels (Some (relationshipFilter config)) (maxLevel config)
                 [node_id start] [[start]]).

(** [apoc.algo.allSimplePaths(a, b, null, depth)]: the paths from [cur] to
    [target] of at most [depth] relationships that visit no node twice. *)
Fixpoint simple_paths (rels : list Relationship) (depth : nat)
  (seen : list nat) (cur target : Node) : list Path :=
  if same_node cur target then [[cur]]
  else match depth with
       | O => []
       | S d =>
           flat_map (fun m =>
                       if visited_in (node_id cur :: seen) m then []
                       else map (cons cur)
                                (simple_paths rels d (node_id cur :: seen)
                                              m target))
                    (neighbours rels None cur)
       end.

(** A session on the store with these nodes and relationships, whose
    vector indexes answer [index] and which fails the queries [faults]
    names. *)
Definition session (ns : list Node) (rels : list Relationship)
  (index : string -> list (Node * Q)) (faults : Query -> option Py.Exn)
  : Session :=
  {| nodes := ns;
     relationships := rels;
     queryNodes := fun index_name k _ => firstn k (index index_name);
     expandConfig := expand rels;
     allSimplePaths := fun a b depth => simple_paths rels depth [] a b;
     fault := faults |}.

End Reference.

(** ** Example stores *)

Module Fixtures.
Import Graph Cypher.

Definition no_faults : Query -> option Py.Exn := fun _ => None.

(** The embedding of the query; the example indexes do not look at it. *)
Definition embedding : list Q := [1 # 2; 1 # 4].

(** *** A store with two functions and their file *)

Definition parseConfig : Node :=
  {| node_id := 1; labels := ["Function"]; name := Some "parseConfig";
     file_path := Some "src/config.py"; path := None;
     description := Some "Parses the configuration file.";
     context_sample := Some "def parseConfig(path): return load(path)";
     repo_id := None |}.

Definition loadFile : Node :=
  {| node_id := 2; labels := ["Function"]; name := Some "loadFile";
     file_path := Some "src/io.py"; path := None;
     description := Some "Reads a file."; context_sample := None;
     repo_id := None |}.

Definition config_py : Node :=
  {| node_id := 3; labels := ["File"; "PythonModule"];
     name := Some "config.py"; file_path := None;
     path := Some "src/config.py"; description := None;
     context_sample := None; repo_id := Some "repo1" |}.

Definition config_rels : list Relationship :=
  [ mkRel parseConfig "CALLS" loadFile;
    mkRel config_py "CONTAINS" parseConfig ].

Definition config_index (index_name : string) : list (Node * Q) :=
  if String.eqb index_name "function_index"
  then [(parseConfig, 82 # 100); (loadFile, 7 # 10)]
  else if String.eqb index_name "file_index" then [(config_py, 65 # 100)]
  else [].

Definition config_store : Session :=
  Reference.session [parseConfig; loadFile; config_py] config_rels
                    config_index no_faults.

(** The same store when it fails the traversal query. *)
Definition traversal_down (q : Query) : option Py.Exn :=
  match q with
  | traversal_query => Some (Py.Neo4jError "procedure not found")
  | _ => None
  end.

Definition config_store_traversal_down : Session :=
  Reference.session [parseConfig; loadFile; config_py] config_rels
                    config_index traversal_down.

(** *** A store whose file path holds a hyphen *)

Definition main_py : Node :=
  {| node_id := 1; labels := ["File"]; name := Some "main.py";
     file_path := None; path := Some "repos/my-app/main.py";
     description := Some "Entry point."; context_sample := None;
     repo_id := Some "my-app" |}.

Definition run_fn : Node :=
  {| node_id := 2; labels := ["Function"]; name := Some "run";
     file_path := Some "repos/my-app/main.py"; path := None;
     description := Some "Runs the application."; context_sample := None;
     repo_id := None |}.

Definition hyphen_index (index_name : string) : list (Node * Q) :=
  if String.eqb index_name "file_index" then [(main_py, 9 # 10)] else [].

Definition hyphen_store : Session :=
  Reference.session [main_py; run_fn] [mkRel main_py "CONTAINS" run_fn]
                    hyphen_index no_faults.

(** *** A store with two functions of the same name *)






(** *** A store without nodes *)

Definition empty_store : Session :=
  Reference.session [] [] (fun _ => []) no_faults.

(** *** A store whose function index holds a node without file path *)

Definition orphan_fn : Node :=
  {| node_id := 1; labels := ["Function"]; name := Some "orphan";
     file_path := None; path := None; description := None;
     context_sample := None; repo_id := None |}.

Definition unnamed_file : Node :=
  {| node_id := 2; labels := ["File"]; name := None; file_path := None;
     path := None; description := None; context_sample := None;
     repo_id := None |}.

Definition orphan_index (index_name : string) : list (Node * Q) :=
  if String.eqb index_name "function_index" then [(orphan_fn, 99 # 100)]
  else if String.eqb index_name "file_index" then [(unnamed_file, 7 # 10)]
  else [].

Definition orphan_store : Session :=
  Reference.session [orphan_fn; unnamed_file] [] orphan_index no_faults.

(** The example store when it fails every query. *)
Definition config_store_all_down : Session :=
  Reference.session [parseConfig; loadFile; config_py] config_rels
                    config_index
                    (fun _ => Some (Py.Neo4jError "store is down")).

(** *** A world in which every collaborator works *)

Definition working_env : Api.Env :=
  {| Api.driver := Api.Connected config_store;
     Api.verify_connectivity := None;
     Api.provider := fun _ => Py.Ret embedding;
     Api.generate := fun _ _ _ => Py.Ret "parseConfig parses the file.";
     Api.capitalize := fun r => r;
     Api.delete_relationships := None;
     Api.delete_nodes := None |}.

(** The same world when the deletion of the nodes fails. *)
Definition nodes_stay_env : Api.Env :=
  {| Api.driver := Api.Connected config_store;
     Api.verify_connectivity := None;
     Api.provider := fun _ => Py.Ret embedding;
     Api.generate := fun _ _ _ => Py.Ret "parseConfig parses the file.";
     Api.capitalize := fun r => r;
     Api.delete_relationships := None;
     Api.delete_nodes := Some (Py.Neo4jError "transaction timed out") |}.

(** The world in which every collaborator works and the store is empty. *)
Definition empty_env : Api.Env :=
  {| Api.driver := Api.Connected empty_store;
     Api.verify_connectivity := None;
     Api.provider := fun _ => Py.Ret embedding;
     Api.generate := fun _ _ _ => Py.Ret "Nothing is known about it.";
     Api.capitalize := fun r => r;
     Api.delete_relationships := None;
     Api.delete_nodes := None |}.

End Fixtures.


(** ** The plan of a run

    What a run of [retrieve_graph_context] sends and writes when nothing
    fails, as functions of the store, the embedding and the query. *)

Module Plan.
Import Py Graph Cypher Engine.

(** [part] opens [whole]. *)
Definition begins {A : Type} (part whole : list A) : Prop :=
  exists rest, whole = (part ++ rest)%list.

(** The sentences that exist among [l]. *)
Definition texts (l : list (option string)) : list string :=
  flat_map (fun t => match t with
                     | Some sentence => [sentence]
                     | None => []
                     end) l.

Definition wrote (l : list (option string)) : list Event :=
  map Wrote (texts l).

(** The sentence [in_file_sentence] writes for a row; a row without label
    has none, the statement raises on it. *)
Definition in_file_text (lead : string) (res : Row) : option string :=
  match r_type res with
  | Some t =>
      Some (with_code (lead ++ "In file '" ++ Py.str (r_filePath res)
                       ++ "', there is a " ++ Py.lower t ++ " called '"
                       ++ Py.str (r_name res) ++ "'. "
                       ++ Py.str (r_description res))
                      (r_code res))
  | None => None
  end.

Definition name_text (res : Row) : option string :=
  match r_type res with
  | Some t =>
      Some (with_code ("Found a " ++ Py.lower t ++ " named '"
                       ++ Py.str (r_name res) ++ "' in '"
                       ++ Py.str (r_filePath res)
                       ++ "' that matches your query. "
                       ++ Py.str (r_description res))
                      (r_code res))
  | None => None
  end.

Definition desc_text (res : Row) : option string :=
  match r_type res with
  | Some t =>
      Some (with_code ("The " ++ Py.lower t ++ " '" ++ Py.str (r_name res)
                       ++ "' in '" ++ Py.str (r_filePath res)
                       ++ "' appears relevant to your question. "
                       ++ Py.str (r_description res))
                      (r_code res))
  | None => None
  end.

(** The entry of a child in the listing of a file: none for a child
    without name. *)
Definition child_entry (e : ChildRow) : list string :=
  match c_type e with
  | Some t => if Py.truthy (c_name e)
              then [Py.lower t ++ " '" ++ Py.str (c_name e) ++ "'"]
              else []
  | None => []
  end.

Definition summary_text (res : FileRow) : string :=
  "The " ++ Py.lower (file_type_of (f_fileLabels res)) ++ " file '"
  ++ Py.str (f_path res) ++ "' is part of repository '"
  ++ Py.str (f_repoId res) ++ "'.".

Definition listing_text (res : FileRow) (file_entities : list ChildRow)
  : list string :=
  match flat_map child_entry file_entities with
  | [] => []
  | info => ["The file '" ++ Py.str (f_path res) ++ "' contains: "
             ++ Py.join ", " info ++ "."]
  end.

(** The vector results of a store: the rows of the function index, then
    those of the file index. *)
Definition entity_results (s : Session) (query_embedding : list Q)
  : list (Row * Q) :=
  (Cypher.function_results s query_embedding
   ++ Cypher.file_results s query_embedding)%list.

Definition top_names (er : list (Row * Q)) : list (option string) :=
  map (fun res => r_name (fst res)) (firstn 2 er).

(** *** Stage by stage *)

Definition vector_events (er : list (Row * Q)) : list Event :=
  Sent function_query :: Sent file_query
  :: wrote (map (fun res => in_file_text "" (fst res)) er).

Definition traversal_events (s : Session) (er : list (Row * Q))
  : list Event :=
  match er with
  | [] => []
  | _ => Sent traversal_query
         :: wrote (map (in_file_text "Via graph traversal: ")
                       (Cypher.traversal_results s (entity_ids er)))
  end.

Definition path_events (s : Session) (er : list (Row * Q)) : list Event :=
  if 2 <=? List.length er
  then Sent path_query
       :: wrote (map (in_file_text "Via path connection: ")
                     (Cypher.path_results s (nth 0 (top_names er) None)
                                          (nth 1 (top_names er) None)))
  else [].

Definition keyword_events (s : Session) (user_query : string) : list Event :=
  match Keywords.extract_keywords user_query with
  | [] => []
  | keywords =>
      (Sent name_query
       :: wrote (map name_text (Cypher.name_results s keywords)))
      ++ Sent desc_query
         :: wrote (map desc_text (Cypher.desc_results s keywords))
  end%list.

Definition file_events (s : Session) (res : FileRow) : list Event :=
  Wrote (summary_text res)
  :: Sent (file_entities_query (f_path res))
  :: map Wrote (listing_text res (Cypher.file_entities_results s (f_path res))).

Definition file_context_events (s : Session) (er : list (Row * Q))
  : list Event :=
  match file_paths_of er with
  | [] => []
  | file_paths =>
      Sent file_context_query
      :: flat_map (file_events s) (Cypher.file_context_results s file_paths)
  end.

(** The whole run. *)
Definition plan (s : Session) (query_embedding : list Q)
  (user_query : string) : list Event :=
  let er := entity_results s query_embedding in
  (vector_events er ++ traversal_events s er ++ path_events s er
   ++ keyword_events s user_query ++ file_context_events s er)%list.

(** A statement follows [events] when, whatever state it starts from, it
    adds an opening part of [events] to the trace, and all of them when
    it ends without raising, its value then satisfying [P]. *)
Definition follows {A : Type} (events : list Event) (P : A -> Prop)
  (m : M A) : Prop :=
  forall st,
    exists done,
      trace (fst (m st)) = (trace st ++ done)%list
      /\ match snd (m st) with
         | Ret a => done = events /\ P a
         | Raise _ => begins done events
         end.

Definition anything {A : Type} : A -> Prop := fun _ => True.

(** *** The queries and the evidence of the plan *)

Definition file_rows (s : Session) (er : list (Row * Q)) : list FileRow :=
  Cypher.file_context_results s (file_paths_of er).

Definition query_plan (s : Session) (query_embedding : list Q)
  (user_query : string) : list Query :=
  let er := entity_results s query_embedding in
  ([function_query; file_query]
   ++ match er with
      | [] => []
      | _ => [traversal_query]
      end
   ++ (if 2 <=? List.length er then [path_query] else [])
   ++ match Keywords.extract_keywords user_query with
      | [] => []
      | _ => [name_query; desc_query]
      end
   ++ match file_paths_of er with
      | [] => []
      | _ => file_context_query
             :: map (fun res => file_entities_query (f_path res))
                    (file_rows s er)
      end)%list.

Definition vector_evidence (er : list (Row * Q)) : list string :=
  texts (map (fun res => in_file_text "" (fst res)) er).

Definition traversal_evidence (s : Session) (er : list (Row * Q))
  : list string :=
  match er with
  | [] => []
  | _ => texts (map (in_file_text "Via graph traversal: ")
                    (Cypher.traversal_results s (entity_ids er)))
  end.

Definition path_rows (s : Session) (er : list (Row * Q)) : list Row :=
  Cypher.path_results s (nth 0 (top_names er) None) (nth 1 (top_names er) None).

Definition path_evidence (s : Session) (er : list (Row * Q)) : list string :=
  if 2 <=? List.length er
  then texts (map (in_file_text "Via path connection: ") (path_rows s er))
  else [].

Definition keyword_evidence (s : Session) (user_query : string)
  : list string :=
  match Keywords.extract_keywords user_query with
  | [] => []
  | keywords =>
      (texts (map name_text (Cypher.name_results s keywords))
       ++ texts (map desc_text (Cypher.desc_results s keywords)))%list
  end.

Definition file_evidence (s : Session) (er : list (Row * Q)) : list string :=
  flat_map (fun res =>
              summary_text res
              :: listing_text res
                   (Cypher.file_entities_results s (f_path res)))
           (file_rows s er).

(** The evidence in its order: vector, traversal, path, keyword by name,
    keyword by description, files. *)
Definition evidence_plan (s : Session) (query_embedding : list Q)
  (user_query : string) : list string :=
  let er := entity_results s query_embedding in
  (vector_evidence er ++ traversal_evidence s er ++ path_evidence s er
   ++ keyword_evidence s user_query ++ file_evidence s er)%list.

(** A vector index that returns no more neighbours than asked for. *)
Definition index_bounded (s : Session) : Prop :=
  forall index_name k query_embedding,
    List.length (queryNodes s index_name k query_embedding) <= k.

End Plan.


(** ** The chat endpoint, seen from its caller *)

Module Service.
Import Py Graph Engine Api.

(** The line of one message of the history in the prompt. *)
Definition history_line (env : Env) (msg : Message) : string :=
  capitalize env (Py.str (role msg)) ++ ": " ++ Py.str (content msg) ++ nl.

Definition history_lines (env : Env) (msgs : list Message) : string :=
  fold_right (fun msg lines => history_line env msg ++ lines) EmptyString msgs.

(** The same world with another state of the connection. *)
Definition with_driver (env : Env) (d : Driver) : Env :=
  {| driver := d;
     verify_connectivity := verify_connectivity env;
     provider := provider env;
     generate := generate env;
     capitalize := capitalize env;
     delete_relationships := delete_relationships env;
     delete_nodes := delete_nodes env |}.

End Service.

(** ** The store under [clear_database] *)

Module Database.
Import Py Graph Api.

(** The store: its nodes and its relationships. *)
Definition Store : Type := (list Node * list Relationship)%type.

(** [MATCH ()-[r]-() DELETE r]: every relationship matches the pattern. *)
Definition delete_all_relationships (store : Store) : Outcome Store :=
  Ret (fst store, []).

(** [MATCH (n) DELETE n]: the database deletes no node that still has a
    relationship. *)
Definition delete_all_nodes (store : Store) : Outcome Store :=
  match snd store with
  | [] => Ret ([], [])
  | _ :: _ =>
      Raise (Neo4jError
               "Cannot delete node, because it still has relationships. To delete this node, you must first delete its relationships.")
  end.

(** A program that works on the store and may raise. *)
Definition Tx (A : Type) : Type := Store -> Store * Outcome A.

Definition ret {A : Type} (a : A) : Tx A := fun store => (store, Ret a).

Definition lift {A : Type} (o : Outcome A) : Tx A := fun store => (store, o).

Definition bind {A B : Type} (m : Tx A) (k : A -> Tx B) : Tx B :=
  fun store =>
    match m store with
    | (store', Ret a) => k a store'
    | (store', Raise e) => (store', Raise e)
    end.

(** [session.run(query)] outside a transaction: the query runs in a
    transaction of its own, committed when the query succeeds and rolled
    back when it fails.  [failure] is what the database or the connection
    fails the call with, if anything. *)
Definition run (failure : option Exn) (query : Store -> Outcome Store)
  : Tx unit :=
  fun store =>
    match failure with
    | Some e => (store, Raise e)
    | None =>
        match query store with
        | Ret store' => (store', Ret tt)
        | Raise e => (store, Raise e)
        end
    end.

(** The body of the [try] statement of [clear_database]. *)
Definition attempt (env : Env) : Tx Response :=
  bind (lift (get_neo4j_driver env)) (fun _ =>
  bind (run (delete_relationships env) delete_all_relationships) (fun _ =>
  bind (run (delete_nodes env) delete_all_nodes) (fun _ =>
  ret (mkResponse [("success", JBool true);
                   ("message", JString "Database cleared successfully")]
                  200)))).

(** [clear_database] on a store: the [try] statement with its three
    [except] clauses. *)
Definition clear_database (env : Env) : Tx Response :=
  fun store =>
    match attempt env store with
    | (store', Ret r) => (store', Ret r)
    | (store', Raise (ConnectionError message)) =>
        (store', Raise (ConnectionError message))
    | (store', Raise (Neo4jError message)) =>
        (store',
         Ret (mkResponse [("success", JBool false);
                          ("message", JString ("Database error: " ++ message))]
                         500))
    | (store', Raise e) =>
        (store',
         Ret (mkResponse [("success", JBool false);
                          ("message",
                           JString ("Unexpected error: " ++ exn_text e))]
                         500))
    end.

End Database.


(** ** Start-up, the connection and the vector indexes *)

Module Admin.
Import Py Graph.

(** *** The checks at start-up *)

(** The environment variables the module reads; [None] when unset. *)
Record Environ := mkEnviron {
  GCP_PROJECT_ID : option string;
  GCP_REGION : option string;
  NEO4J_URI : option string;
  NEO4J_USERNAME : option string;
  NEO4J_PASSWORD : option string }.

Inductive Start :=
| Exits (critical : string)
| Serves.

(** The code that runs when the module is loaded, up to the models;
    [vertex] is what initialising Vertex AI and loading the two models
    raises, if anything. *)
Definition startup (env : Environ) (vertex : option Exn) : Start :=
  if negb (truthy (GCP_PROJECT_ID env))
  then Exits "GCP_PROJECT_ID environment variable not set. Exiting."
  else if negb (truthy (GCP_REGION env))
  then Exits "GCP_REGION environment variable not set. Exiting."
  else if negb (truthy (NEO4J_URI env))
  then Exits "NEO4J_URI environment variable not set. Exiting."
  else if negb (truthy (NEO4J_USERNAME env))
  then Exits "NEO4J_USERNAME environment variable not set. Exiting."
  else if negb (truthy (NEO4J_PASSWORD env))
  then Exits "NEO4J_PASSWORD environment variable not set. Exiting."
  else match vertex with
       | Some (GoogleAPIError reason code) =>
           Exits ("Failed to initialize Vertex AI or load models: "
                  ++ exn_text (GoogleAPIError reason code))
       | Some e =>
           Exits ("An unexpected error occurred during Vertex AI initialization: "
                  ++ exn_text e)
       | None => Serves
       end.

(** *** The index catalogue of the database *)

Record Index := mkIndex {
  index_name : string;
  kind : string;
  on_label : string;
  on_property : string;
  dimensions : nat;
  similarity : string }.

Inductive Command :=
| ShowIndexes
| DropIndex (name : string)
| CreateIndex (name : string).

(** What the database fails: opening a session, and the commands. *)
Record Faults := mkFaults {
  session_fault : option Exn;
  failing : Command -> option Exn }.

Inductive Note :=
| Warning (msg : string)
| Error (msg : string)
| Critical (msg : string).

Definition desired_dim : nat := 3072.

(** The two indexes of [index_creation_queries], in the order of the
    dictionary. *)
Definition index_creation_queries : list Index :=
  [ mkIndex "file_index" "VECTOR" "File" "embedding" desired_dim "cosine";
    mkIndex "function_index" "VECTOR" "Function" "embedding" desired_dim
            "cosine" ].

Definition managed_names : list string := ["file_index"; "function_index"].

Definition managed (ix : Index) : bool :=
  existsb (String.eqb (index_name ix)) managed_names.

(** [SHOW INDEXES WHERE name in ['file_index', 'function_index']] *)
Definition show_indexes (catalog : list Index) : list Index :=
  filter managed catalog.

(** [DROP INDEX name]: an error when there is no such index. *)
Definition drop_index (name : string) (catalog : list Index)
  : Outcome (list Index) :=
  if existsb (fun ix => String.eqb name (index_name ix)) catalog
  then Ret (filter (fun ix => negb (String.eqb name (index_name ix))) catalog)
  else Raise (Neo4jError ("There is no index named " ++ name)).

Definition same_schema (a b : Index) : bool :=
  String.eqb (kind a) (kind b) && String.eqb (on_label a) (on_label b)
  && String.eqb (on_property a) (on_property b).

(** An index that keeps [CREATE ... IF NOT EXISTS] from creating [ix]:
    one of its name, or one of its kind on its label and property. *)
Definition blocks (ix old : Index) : bool :=
  String.eqb (index_name old) (index_name ix) || same_schema old ix.

(** [CREATE VECTOR INDEX ... IF NOT EXISTS ...] *)
Definition create_if_not_exists (ix : Index) (catalog : list Index)
  : list Index :=
  if existsb (blocks ix) catalog then catalog else (catalog ++ [ix])%list.

(** The loop that drops the indexes found; it stops at the first error. *)
Fixpoint drop_all (f : Faults) (existing catalog : list Index)
  : list Index * option Exn :=
  match existing with
  | [] => (catalog, None)
  | index :: rest =>
      match index_name index with
      | EmptyString => drop_all f rest catalog
      | name =>
          match failing f (DropIndex name) with
          | Some e => (catalog, Some e)
          | None =>
              match drop_index name catalog with
              | Raise e => (catalog, Some e)
              | Ret catalog' => drop_all f rest catalog'
              end
          end
      end
  end.

(** The loop that creates the indexes; it stops at the first error. *)
Fixpoint create_all (f : Faults) (wanted catalog : list Index)
  : list Index * option Exn :=
  match wanted with
  | [] => (catalog, None)
  | ix :: rest =>
      match failing f (CreateIndex (index_name ix)) with
      | Some e => (catalog, Some e)
      | None => create_all f rest (create_if_not_exists ix catalog)
      end
  end.

(** [create_vector_indexes]: the catalogue and the notes logged after the
    call.  Nothing is raised: the inner [try] turns an error of the check
    or of a drop into a warning and goes on, the outer one turns any
    other error into an error record. *)
Definition create_vector_indexes (f : Faults) (catalog : list Index)
  : list Index * list Note :=
  match session_fault f with
  | Some (Neo4jError message) =>
      (catalog,
       [Error ("Failed to create or verify GDS vector index. Please ensure the GDS plugin is installed in Neo4j. Error: "
               ++ message)])
  | Some e =>
      (catalog,
       [Error ("An unexpected error occurred during index creation: "
               ++ exn_text e)])
  | None =>
      let dropped :=
        match failing f ShowIndexes with
        | Some e => (catalog, Some e)
        | None => drop_all f (show_indexes catalog) catalog
        end in
      let warnings :=
        match snd dropped with
        | Some e => [Warning ("Could not check or drop existing indexes: "
                              ++ exn_text e)]
        | None => []
        end in
      match create_all f index_creation_queries (fst dropped) with
      | (catalog', None) => (catalog', warnings)
      | (catalog', Some (Neo4jError message)) =>
          (catalog',
           (warnings
            ++ [Error ("Failed to create or verify GDS vector index. Please ensure the GDS plugin is installed in Neo4j. Error: "
                       ++ message)])%list)
      | (catalog', Some e) =>
          (catalog',
           (warnings
            ++ [Error ("An unexpected error occurred during index creation: "
                       ++ exn_text e)])%list)
      end
  end.

Definition no_faults : Faults := mkFaults None (fun _ => None).

(** *** The connection *)

(** What opening the driver or checking the connection raises, as the
    two [except] clauses of [get_neo4j_driver] tell them apart. *)
Inductive Failure :=
| ServiceUnavailable (text : string)
| OtherFailure (text : string).

(** The database as one call of [get_neo4j_driver] finds it:
    [driver_open] is the outcome of [GraphDatabase.driver(...)],
    [connectivity] that of [verify_connectivity()]. *)
Record Backend := mkBackend {
  driver_open : Failure + Session;
  connectivity : option Failure;
  faults : Faults }.

(** The global [neo4j_driver], with the catalogue of the database and
    the notes logged. *)
Record Process := mkProcess {
  neo4j_driver : option Session;
  catalog : list Index;
  notes : list Note }.

Definition connection_error (failure : Failure) : Note * Exn :=
  match failure with
  | ServiceUnavailable text =>
      (Critical ("Neo4j connection failed: Service Unavailable. Check URI, credentials, and network. Error: "
                 ++ text),
       ConnectionError "Failed to connect to Neo4j database.")
  | OtherFailure text =>
      (Critical ("An unexpected error occurred during Neo4j driver initialization: "
                 ++ text),
       ConnectionError "Failed to initialize Neo4j database driver.")
  end.

(** [get_neo4j_driver]: the global is assigned as soon as the driver is
    made, before the connection is checked. *)
Definition get_neo4j_driver (b : Backend) (p : Process)
  : Process * Outcome Session :=
  match neo4j_driver p with
  | Some d => (p, Ret d)
  | None =>
      match driver_open b with
      | inl failure =>
          (mkProcess None (catalog p)
                     (notes p ++ [fst (connection_error failure)])%list,
           Raise (snd (connection_error failure)))
      | inr d =>
          match connectivity b with
          | Some failure =>
              (mkProcess (Some d) (catalog p)
                         (notes p ++ [fst (connection_error failure)])%list,
               Raise (snd (connection_error failure)))
          | None =>
              let created := create_vector_indexes (faults b) (catalog p) in
              (mkProcess (Some d) (fst created)
                         (notes p ++ snd created)%list,
               Ret d)
          end
      end
  end.

End Admin.


Module AdminFixtures.
Import Py Graph Admin.

(** A database left by an earlier embedding model: [file_index] built
    for 768 dimensions, and an index of another name. *)
Definition stale_file_index : Index :=
  mkIndex "file_index" "VECTOR" "File" "embedding" 768 "cosine".

Definition name_lookup : Index :=
  mkIndex "name_lookup" "RANGE" "Function" "name" 0 "".

Definition stale_catalog : list Index := [stale_file_index; name_lookup].

(** The check of the existing indexes fails, everything else works. *)
Definition check_fails : Faults :=
  mkFaults None
    (fun c => match c with
              | ShowIndexes => Some (OtherException "SHOW INDEXES is not supported")
              | _ => None
              end).

Definition fresh_process : Process := mkProcess None stale_catalog [].

Definition unreachable (d : Session) : Backend :=
  mkBackend (inr d) (Some (ServiceUnavailable "connection refused"))
            no_faults.

Definition reachable (d : Session) : Backend :=
  mkBackend (inr d) None no_faults.

End AdminFixtures.

(* ================================================================== *)
(** * Properties *)

Module PyFacts.
Import Py.

Lemma isspace_lower_char c : isspace (lower_char c) = isspace c.
Proof.
  destruct c as [[] [] [] [] [] [] [] []]; reflexivity.
Qed.

Lemma lower_char_idem c : lower_char (lower_char c) = lower_char c.
Proof.
  destruct c as [[] [] [] [] [] [] [] []]; reflexivity.
Qed.

Lemma lower_app a b : lower (a ++ b) = lower a ++ lower b.
Proof.
  induction a as [|c a IH]; simpl; [reflexivity | now rewrite IH].
Qed.

Lemma lower_idem s : lower (lower s) = lower s.
Proof.
  induction s as [|c s IH]; simpl; [reflexivity|].
  now rewrite lower_char_idem, IH.
Qed.

Lemma lower_length s : String.length (lower s) = String.length s.
Proof.
  induction s as [|c s IH]; simpl; [reflexivity | now rewrite IH].
Qed.

Lemma no_space_lower s : no_space (lower s) = no_space s.
Proof.
  unfold no_space.
  induction s as [|c s IH]; simpl; [reflexivity|].
  now rewrite isspace_lower_char, IH.
Qed.

Lemma no_space_app a b : no_space (a ++ b) = no_space a && no_space b.
Proof.
  unfold no_space.
  induction a as [|c a IH]; simpl; [reflexivity|].
  now rewrite IH, andb_assoc.
Qed.

Lemma app_empty_r (s : string) : s ++ "" = s.
Proof.
  induction s as [|c s IH]; simpl; [reflexivity | now rewrite IH].
Qed.

Lemma app_assoc_str (a b c : string) : (a ++ b) ++ c = a ++ (b ++ c).
Proof.
  induction a as [|x a IH]; simpl; [reflexivity | now rewrite IH].
Qed.

Lemma flush_lower cur : flush (lower cur) = map lower (flush cur).
Proof. destruct cur; reflexivity. Qed.

(** Lowering the text lowers every token and moves no cut. *)
Lemma split_from_lower s : forall cur,
  split_from (lower cur) (lower s) = map lower (split_from cur s).
Proof.
  induction s as [|c s IH]; intros cur; simpl.
  - apply flush_lower.
  - rewrite isspace_lower_char. destruct (isspace c).
    + rewrite map_app, <- flush_lower. f_equal. apply (IH "").
    + rewrite <- IH, lower_app. reflexivity.
Qed.

Lemma split_lower s : split (lower s) = map lower (split s).
Proof. apply (split_from_lower s ""). Qed.

(** A whitespace character ends the token before it. *)
Lemma split_from_app_space a : forall cur sp b,
  isspace sp = true ->
  split_from cur (a ++ String sp b) = (split_from cur a ++ split b)%list.
Proof.
  induction a as [|c a IH]; intros cur sp b Hsp; simpl.
  - now rewrite Hsp.
  - destruct (isspace c).
    + rewrite IH by assumption. now rewrite app_assoc.
    + now apply IH.
Qed.

(** A text without whitespace is one token. *)
Lemma split_from_token t : forall cur,
  no_space t = true -> split_from cur t = flush (cur ++ t).
Proof.
  induction t as [|c t IH]; intros cur Ht; simpl.
  - now rewrite app_empty_r.
  - unfold no_space in Ht. simpl in Ht. apply andb_true_iff in Ht as [Hc Ht].
    apply negb_true_iff in Hc. rewrite Hc.
    rewrite IH by exact Ht. now rewrite app_assoc_str.
Qed.

Lemma split_token t : t <> "" -> no_space t = true -> split t = [t].
Proof.
  intros Hne Ht. unfold split. rewrite split_from_token by exact Ht.
  simpl. destruct t; [congruence | reflexivity].
Qed.

(** Every token is non-empty and holds no whitespace. *)
Lemma split_from_tokens s : forall cur t,
  no_space cur = true -> In t (split_from cur s) ->
  t <> "" /\ no_space t = true.
Proof.
  induction s as [|c s IH]; intros cur t Hcur Hin; simpl in Hin.
  - destruct cur; simpl in Hin; [contradiction|].
    destruct Hin as [<-|[]]. split; [discriminate | exact Hcur].
  - destruct (isspace c) eqn:Hc.
    + apply in_app_or in Hin as [Hin|Hin].
      * destruct cur; simpl in Hin; [contradiction|].
        destruct Hin as [<-|[]]. split; [discriminate | exact Hcur].
      * now apply (IH "" t).
    + apply (IH (cur ++ String c "") t); [|exact Hin].
      rewrite no_space_app, Hcur. unfold no_space. simpl. now rewrite Hc.
Qed.

Lemma split_tokens s t : In t (split s) -> t <> "" /\ no_space t = true.
Proof. now apply split_from_tokens. Qed.

(** Joining tokens with one space and splitting again gives them back. *)
Lemma split_join ts :
  Forall (fun t => t <> "" /\ no_space t = true) ts ->
  split (join " " ts) = ts.
Proof.
  induction 1 as [|t ts [Hne Ht] Hts IH]; [reflexivity|].
  destruct ts as [|u ts].
  - simpl. now apply split_token.
  - change (join " " (t :: u :: ts)) with (t ++ String " " (join " " (u :: ts))).
    unfold split at 1. rewrite split_from_app_space by reflexivity.
    rewrite IH. fold (split t). now rewrite split_token.
Qed.

End PyFacts.

Module KeywordFacts.
Import Py PyFacts Keywords.

Lemma extract_keywords_tokens q :
  extract_keywords q = keywords_of_tokens (split q).
Proof. reflexivity. Qed.

Lemma is_stop_word_In w : is_stop_word w = true <-> In w stop_words.
Proof.
  unfold is_stop_word. rewrite existsb_exists. split.
  - intros (x & Hx & Heq). apply String.eqb_eq in Heq. now subst.
  - intros H. exists w. split; [exact H | apply String.eqb_refl].
Qed.

Lemma In_keywords_of_tokens ts k :
  In k (keywords_of_tokens ts) <->
  (exists w, In w ts /\ 2 < String.length w /\ k = lower w)
  /\ is_stop_word k = false.
Proof.
  unfold keywords_of_tokens. rewrite filter_In, in_map_iff, negb_true_iff.
  split.
  - intros [(w & <- & Hw) Hs]. apply filter_In in Hw as [Hw Hlen].
    apply Nat.ltb_lt in Hlen. split; [|exact Hs]. now exists w.
  - intros [(w & Hw & Hlen & ->) Hs]. split; [|exact Hs].
    exists w. split; [reflexivity|]. apply filter_In. split; [exact Hw|].
    now apply Nat.ltb_lt.
Qed.

End KeywordFacts.

(** ** Keyword extraction beyond Latin-1 *)

Module UnicodeFacts.
Import Unicode.




(** *** Lower-casing *)








(** *** Splitting *)












(** *** The keyword step *)








(** *** The strings of code points below 256 *)














End UnicodeFacts.


Module CypherFacts.
Import Graph Cypher.

(** *** ORDER BY *)

Section OrderByFacts.
Context {A : Type} (before : A -> A -> bool).

Let R (x y : A) : Prop := before x y = true.

Lemma insert_perm x l : Permutation (insert before x l) (x :: l).
Proof.
  induction l as [|y l IH]; simpl; [apply Permutation_refl|].
  destruct (before x y); [apply Permutation_refl|].
  eapply perm_trans; [apply perm_skip, IH | apply perm_swap].
Qed.

Lemma order_by_perm l : Permutation (order_by before l) l.
Proof.
  induction l as [|x l IH]; simpl; [constructor|].
  eapply perm_trans; [apply insert_perm | now apply perm_skip].
Qed.

Lemma order_by_In l x : In x (order_by before l) <-> In x l.
Proof.
  split; apply Permutation_in;
    [apply order_by_perm | apply Permutation_sym, order_by_perm].
Qed.

Lemma order_by_length l : List.length (order_by before l) = List.length l.
Proof. apply Permutation_length, order_by_perm. Qed.

Hypothesis before_total : forall x y, before x y = false -> before y x = true.
Hypothesis before_trans :
  forall x y z, before x y = true -> before y z = true -> before x z = true.

Lemma insert_sorted x l :
  StronglySorted R l -> StronglySorted R (insert before x l).
Proof.
  induction 1 as [|y l Hl IH Hy]; simpl.
  - repeat constructor.
  - destruct (before x y) eqn:E.
    + constructor; [now constructor|].
      constructor; [exact E|].
      eapply Forall_impl; [|exact Hy]. intros z Hz. now apply (before_trans x y z).
    + constructor; [exact IH|].
      eapply Permutation_Forall; [apply Permutation_sym, insert_perm|].
      constructor; [now apply before_total | exact Hy].
Qed.

Lemma order_by_sorted l : StronglySorted R (order_by before l).
Proof.
  induction l as [|x l IH]; simpl; [constructor | now apply insert_sorted].
Qed.
End OrderByFacts.

Lemma score_desc_total x y : score_desc x y = false -> score_desc y x = true.
Proof.
  unfold score_desc. intros H. apply Qle_bool_iff.
  destruct (Qlt_le_dec (snd x) (snd y)) as [Hlt|Hle].
  - now apply Qlt_le_weak.
  - apply Qle_bool_iff in Hle. congruence.
Qed.

Lemma score_desc_trans x y z :
  score_desc x y = true -> score_desc y z = true -> score_desc x z = true.
Proof.
  unfold score_desc. rewrite !Qle_bool_iff. intros H1 H2.
  now apply Qle_trans with (snd y).
Qed.



Lemma order_by_score_descending rows : descending (order_by score_desc rows).
Proof.
  unfold descending.
  eapply StronglySorted_ind with (P := fun l => StronglySorted _ l);
    [constructor | | apply (order_by_sorted score_desc score_desc_total
                                           score_desc_trans rows)].
  intros a l _ IH Ha. constructor; [exact IH|].
  eapply Forall_impl; [|exact Ha]. intros b Hb. now apply Qle_bool_iff.
Qed.

Lemma above_min_score_iff score :
  above_min_score score = true <-> (MIN_SCORE < score)%Q.
Proof.
  unfold above_min_score. rewrite negb_true_iff. split.
  - intros H. apply Qnot_le_lt. intros Hle. apply Qle_bool_iff in Hle. congruence.
  - intros H. destruct (Qle_bool score MIN_SCORE) eqn:E; [|reflexivity].
    apply Qle_bool_iff in E. exfalso. now apply (Qlt_not_le _ _ H).
Qed.

(** *** RETURN DISTINCT *)

Lemma row_eqb_eq a b : row_eqb a b = true <-> a = b.
Proof. unfold row_eqb. destruct (Row_eq_dec a b); split; congruence. Qed.

Lemma distinct_In rows r : In r (distinct rows) <-> In r rows.
Proof.
  induction rows as [|x rows IH]; simpl; [tauto|].
  rewrite filter_In, IH, negb_true_iff. split.
  - intros [H|[H _]]; auto.
  - intros [H|H]; [now left|].
    destruct (Row_eq_dec x r) as [E|E]; [now left | right].
    split; [exact H|]. destruct (row_eqb x r) eqn:B; [|reflexivity].
    apply row_eqb_eq in B. contradiction.
Qed.

Lemma distinct_NoDup rows : NoDup (distinct rows).
Proof.
  induction rows as [|x rows IH]; simpl; constructor.
  - rewrite filter_In. intros [_ H]. apply negb_true_iff in H.
    assert (row_eqb x x = true) by now apply row_eqb_eq. congruence.
  - now apply NoDup_filter.
Qed.

(** *** LIMIT *)

Lemma firstn_In {A : Type} n (l : list A) x : In x (firstn n l) -> In x l.
Proof.
  intros H. rewrite <- (firstn_skipn n l). apply in_or_app. now left.
Qed.

Lemma firstn_NoDup {A : Type} n (l : list A) : NoDup l -> NoDup (firstn n l).
Proof.
  intros H. rewrite <- (firstn_skipn n l) in H.
  now apply NoDup_app_remove_r in H.
Qed.

(** *** The vector stage's queries *)

Lemma function_results_In s emb r sc :
  In (r, sc) (function_results s emb) <->
  exists node, In (node, sc) (queryNodes s "function_index" 5 emb)
               /\ (MIN_SCORE < sc)%Q /\ file_path node <> None
               /\ r = entity_row node (file_path node).
Proof.
  unfold function_results. rewrite order_by_In, in_map_iff. split.
  - intros ([node sc'] & Heq & Hin). simpl in Heq. inversion Heq; subst.
    apply filter_In in Hin as [Hin Hf]. simpl in Hf.
    apply andb_true_iff in Hf as [Hs Hp]. apply above_min_score_iff in Hs.
    exists node. repeat split; try assumption.
    destruct (file_path node); [discriminate | discriminate Hp].
  - intros (node & Hin & Hs & Hp & ->). exists (node, sc). split; [reflexivity|].
    apply filter_In. split; [exact Hin|]. simpl.
    apply andb_true_iff. split; [now apply above_min_score_iff|].
    destruct (file_path node); [reflexivity | contradiction].
Qed.

Lemma file_results_In s emb r sc :
  In (r, sc) (file_results s emb) <->
  exists node, In (node, sc) (queryNodes s "file_index" 5 emb)
               /\ (MIN_SCORE < sc)%Q /\ r = entity_row node (path node).
Proof.
  unfold file_results. rewrite order_by_In, in_map_iff. split.
  - intros ([node sc'] & Heq & Hin). simpl in Heq. inversion Heq; subst.
    apply filter_In in Hin as [Hin Hs]. simpl in Hs.
    apply above_min_score_iff in Hs. now exists node.
  - intros (node & Hin & Hs & ->). exists (node, sc). split; [reflexivity|].
    apply filter_In. split; [exact Hin|]. now apply above_min_score_iff.
Qed.

(** C10. A neighbour from the function index is kept exactly when its
    score is above the threshold and its node has a file path, so one
    without file path is left out whatever its score; a neighbour from
    the file index is kept exactly when its score is above the
    threshold. *)
Theorem vector_stage_filters s emb :
  (forall r sc,
      In (r, sc) (function_results s emb) <->
      exists node, In (node, sc) (queryNodes s "function_index" 5 emb)
                   /\ (MIN_SCORE < sc)%Q /\ file_path node <> None
                   /\ r = entity_row node (file_path node))
  /\ (forall node sc,
         In (node, sc) (queryNodes s "function_index" 5 emb) ->
         file_path node = None ->
         ~ In (entity_row node (file_path node), sc) (function_results s emb))
  /\ (forall r sc,
         In (r, sc) (file_results s emb) <->
         exists node, In (node, sc) (queryNodes s "file_index" 5 emb)
                      /\ (MIN_SCORE < sc)%Q /\ r = entity_row node (path node)).
Proof.
  split; [|split].
  - intros r sc. apply function_results_In.
  - intros node sc _ Hnone Hin.
    apply function_results_In in Hin as (node' & _ & _ & Hp & Heq).
    apply (f_equal r_filePath) in Heq. simpl in Heq.
    rewrite Hnone in Heq. congruence.
  - intros r sc. apply file_results_In.
Qed.

(** The function without file path scores 0.99 and is left out; the file
    without path scores 0.7 and is kept. *)
Lemma vector_stage_filters_witness :
  ~ In (entity_row Fixtures.orphan_fn None, 99 # 100)
       (function_results Fixtures.orphan_store Fixtures.embedding)
  /\ In (entity_row Fixtures.unnamed_file None, 7 # 10)
        (file_results Fixtures.orphan_store Fixtures.embedding).
Proof.
  split.
  - apply (proj1 (proj2 (vector_stage_filters Fixtures.orphan_store
                                              Fixtures.embedding))
             Fixtures.orphan_fn (99 # 100)).
    + simpl. now left.
    + reflexivity.
  - apply (proj2 (proj2 (vector_stage_filters Fixtures.orphan_store
                                              Fixtures.embedding))).
    exists Fixtures.unnamed_file. split; [simpl; now left|].
    split; reflexivity.
Defined.

(** *** The traversal query *)

Lemma split_free d s : free_of d s = true -> split d s = [s].
Proof.
  induction s as [|c s IH]; simpl; [reflexivity|]. unfold free_of. simpl.
  intros H. apply andb_true_iff in H as [Hc Hs]. apply negb_true_iff in Hc.
  rewrite Hc. fold (free_of d s) in Hs. now rewrite (IH Hs).
Qed.

Lemma split_pair d a b :
  free_of d a = true -> free_of d b = true ->
  split d (a ++ String d b) = [a; b].
Proof.
  intros Ha Hb. induction a as [|c a IH]; simpl.
  - rewrite Ascii.eqb_refl. now rewrite split_free.
  - unfold free_of in Ha. simpl in Ha. apply andb_true_iff in Ha as [Hc Ha].
    apply negb_true_iff in Hc. rewrite Hc. now rewrite (IH Ha).
Qed.

(** A seed whose name and file path hold no hyphen is looked up by
    exactly that name and file path. *)
Lemma hyphen_free_seed_located s nm filePath :
  free_of "-" nm = true -> free_of "-" filePath = true ->
  traversal_starts s [nm ++ "-" ++ filePath]
  = filter (start_matches (Some nm) (Some filePath)) (nodes s).
Proof.
  intros Hn Hf. unfold traversal_starts. simpl.
  change (nm ++ String "-" filePath) with (nm ++ String "-"%char filePath).
  rewrite (split_pair "-" nm filePath Hn Hf). simpl. apply app_nil_r.
Qed.

Lemma traversal_reached_In s ids node start :
  In (node, start) (traversal_reached s ids) <->
  In start (traversal_starts s ids)
  /\ exists p, In p (expandConfig s start traversal_config)
               /\ last_node p = Some node
               /\ node_id node <> node_id start.
Proof.
  unfold traversal_reached. rewrite in_flat_map. split.
  - intros (start' & Hstart & Hin). apply in_flat_map in Hin as (p & Hp & Hin).
    destruct (last_node p) as [n|] eqn:El; [|contradiction].
    unfold same_node in Hin. destruct (node_id n =? node_id start') eqn:E;
      [contradiction|].
    destruct Hin as [Heq|[]]. inversion Heq; subst.
    split; [exact Hstart|]. exists p. repeat split; try assumption.
    now apply Nat.eqb_neq.
  - intros (Hstart & p & Hp & Hl & Hne). exists start. split; [exact Hstart|].
    apply in_flat_map. exists p. split; [exact Hp|]. rewrite Hl.
    unfold same_node. apply Nat.eqb_neq in Hne. rewrite Hne. now left.
Qed.

(** C6, as the query has it. The traversal returns at most 20 rows, no row
    twice, and every row is that of a node at the end of a path expanded
    from a start node matched for a seed id, a node other than the start
    node of that path. *)
Theorem traversal_results_spec s ids :
  List.length (traversal_results s ids) <= 20
  /\ NoDup (traversal_results s ids)
  /\ forall row,
       In row (traversal_results s ids) ->
       exists start p node,
         In start (traversal_starts s ids)
         /\ In p (expandConfig s start traversal_config)
         /\ last_node p = Some node
         /\ node_id node <> node_id start
         /\ row = reached_row node.
Proof.
  unfold traversal_results. split; [apply firstn_le_length|].
  split; [apply firstn_NoDup, distinct_NoDup|].
  intros row Hin. apply firstn_In, distinct_In, in_map_iff in Hin.
  destruct Hin as ([node start] & <- & Hin).
  apply traversal_reached_In in Hin as (Hstart & p & Hp & Hl & Hne).
  now exists start, p, node.
Qed.

(** *** The path query *)


Lemma eq_prop_true a b : eq_prop a b = true <-> a = b /\ a <> None.
Proof.
  destruct a as [x|], b as [y|]; simpl; split;
    try (intros [H1 H2]; congruence); try discriminate.
  - intros H. apply String.eqb_eq in H. subst. split; congruence.
  - intros [H _]. inversion H. apply String.eqb_refl.
Qed.

Lemma path_ends_In s entity1 entity2 a b :
  In (a, b) (path_ends s entity1 entity2) <->
  In a (nodes s) /\ In b (nodes s)
  /\ eq_prop (name a) entity1 = true /\ eq_prop (name b) entity2 = true.
Proof.
  unfold path_ends. rewrite in_flat_map. split.
  - intros (a' & Ha & Hin). apply in_map_iff in Hin as (b' & Heq & Hb).
    inversion Heq; subst. apply filter_In in Ha, Hb. tauto.
  - intros (Ha & Hb & Ea & Eb). exists a. split; [now apply filter_In|].
    apply in_map_iff. exists b. split; [reflexivity | now apply filter_In].
Qed.

Lemma shortest_paths_length s entity1 entity2 :
  List.length (shortest_paths s entity1 entity2) <= 3.
Proof. apply firstn_le_length. Qed.



Lemma shortest_paths_candidates s entity1 entity2 p :
  In p (shortest_paths s entity1 entity2) ->
  exists a b, In a (nodes s) /\ In b (nodes s)
              /\ eq_prop (name a) entity1 = true
              /\ eq_prop (name b) entity2 = true
              /\ In p (allSimplePaths s a b 3).
Proof.
  unfold shortest_paths, path_candidates. intros H.
  apply firstn_In, order_by_In, in_flat_map in H as ([a b] & Hab & Hp).
  apply path_ends_In in Hab. exists a, b. tauto.
Qed.


End CypherFacts.

Module ReferenceFacts.
Import Graph Cypher Reference.

Lemma visited_in_cons a seen x :
  visited_in (a :: seen) x = (node_id x =? a) || visited_in seen x.
Proof. reflexivity. Qed.

Lemma last_node_cons x (p : Path) : p <> [] -> last_node (x :: p) = last_node p.
Proof.
  unfold last_node. simpl. intros H.
  destruct (rev p) as [|y r] eqn:E; [|reflexivity].
  apply (f_equal (@rev Node)) in E. rewrite rev_involutive in E. contradiction.
Qed.

(** The reference search returns simple paths from [cur] to [target] that
    avoid the nodes already seen and stay within the depth. *)
Lemma simple_paths_spec rels depth : forall seen cur target p,
  visited_in seen cur = false ->
  In p (simple_paths rels depth seen cur target) ->
  hd_error p = Some cur
  /\ option_map node_id (last_node p) = Some (node_id target)
  /\ NoDup (map node_id p)
  /\ (forall x, In x p -> visited_in seen x = false)
  /\ path_length p <= depth.
Proof.
  assert (Hbase : forall seen cur target p d,
             visited_in seen cur = false ->
             same_node cur target = true -> In p [[cur]] ->
             hd_error p = Some cur
             /\ option_map node_id (last_node p) = Some (node_id target)
             /\ NoDup (map node_id p)
             /\ (forall x, In x p -> visited_in seen x = false)
             /\ path_length p <= d).
  { intros seen cur target p d Hv Hs [<-|[]]. apply Nat.eqb_eq in Hs.
    repeat split.
    - simpl. now rewrite Hs.
    - repeat constructor. simpl. tauto.
    - intros x [<-|[]]. exact Hv.
    - unfold path_length. simpl. lia. }
  induction depth as [|d IH]; intros seen cur target p Hv Hin;
    cbn [simple_paths] in Hin;
    destruct (same_node cur target) eqn:Hs;
    try (now apply (Hbase seen cur target p _ Hv Hs)); [destruct Hin|].
  apply in_flat_map in Hin as (m & _ & Hin).
  destruct (visited_in (node_id cur :: seen) m) eqn:Hm; [contradiction|].
  apply in_map_iff in Hin as (p' & <- & Hp').
  destruct (IH _ _ _ _ Hm Hp') as (Hhd & Hlast & Hnd & Hseen & Hlen).
  assert (Hne : p' <> []) by (destruct p'; [discriminate | discriminate]).
  repeat split.
  - now rewrite last_node_cons.
  - simpl. constructor; [|exact Hnd]. intros Hc.
    apply in_map_iff in Hc as (x & Hx & Hxin).
    specialize (Hseen x Hxin). rewrite visited_in_cons in Hseen.
    apply orb_false_iff in Hseen as [Hseen _].
    apply Nat.eqb_neq in Hseen. congruence.
  - intros x [<-|Hx]; [exact Hv|].
    specialize (Hseen x Hx). rewrite visited_in_cons in Hseen.
    now apply orb_false_iff in Hseen.
  - unfold path_length in *. simpl. destruct p'; [contradiction|]. simpl in *. lia.
Qed.

Lemma session_keeps_contract ns rels index faults :
  keeps_contract (session ns rels index faults).
Proof.
  intros a b depth p Hin. simpl in Hin.
  destruct (simple_paths_spec rels depth [] a b p eq_refl Hin)
    as (Hhd & Hlast & Hnd & _ & Hlen).
  repeat split; try assumption. now rewrite Hhd.
Qed.

End ReferenceFacts.

Module EngineFacts.
Import Py Graph Cypher Engine.

(** *** States that continue one another *)

Lemma queries_app a b : queries (a ++ b)%list = (queries a ++ queries b)%list.
Proof. apply flat_map_app. Qed.

Lemma sentences_app a b :
  sentences (a ++ b)%list = (sentences a ++ sentences b)%list.
Proof. apply flat_map_app. Qed.

Lemma In_queries q events : In q (queries events) <-> In (Sent q) events.
Proof.
  unfold queries. rewrite in_flat_map. split.
  - intros ([q'|t] & Hin & Hq); simpl in Hq; [|contradiction].
    destruct Hq as [<-|[]]. exact Hin.
  - intros H. exists (Sent q). split; [exact H | now left].
Qed.

Lemma permitted_sentences P events :
  Forall (permitted P) events ->
  Forall (fun sentence => sentence <> "") (sentences events).
Proof.
  induction 1 as [|[q|t] events Hev _ IH]; simpl; [constructor | exact IH|].
  now constructor.
Qed.

Lemma permitted_queries P events :
  Forall (permitted P) events -> Forall P (queries events).
Proof.
  induction 1 as [|[q|t] events Hev _ IH]; simpl; [constructor | | exact IH].
  now constructor.
Qed.

Lemma extends_by_refl P st : extends_by P st st.
Proof.
  exists []. simpl. rewrite !app_nil_r. repeat split. constructor.
Qed.

Lemma extends_by_trans P a b c :
  extends_by P a b -> extends_by P b c -> extends_by P a c.
Proof.
  intros (e1 & T1 & F1 & C1 & L1) (e2 & T2 & F2 & C2 & L2).
  exists (e1 ++ e2)%list. repeat split.
  - now rewrite T2, T1, <- app_assoc.
  - now apply Forall_app.
  - now rewrite C2, C1, sentences_app, <- app_assoc.
  - congruence.
Qed.

Lemma extends_by_weaken (P P' : Query -> Prop) a b :
  (forall q, P q -> P' q) -> extends_by P a b -> extends_by P' a b.
Proof.
  intros HP (events & T & F & C & L). exists events. repeat split; try assumption.
  eapply Forall_impl; [|exact F]. intros [q|t]; simpl; auto.
Qed.

(** *** Statements that only continue the state *)

Lemma sends_weaken {A} (P P' : Query -> Prop) (m : M A) :
  (forall q, P q -> P' q) -> sends P m -> sends P' m.
Proof. intros HP H st. eapply extends_by_weaken; [exact HP | apply H]. Qed.

Lemma sends_ret {A} P (a : A) : sends P (ret a).
Proof. intros st. apply extends_by_refl. Qed.

Lemma sends_raise {A} P e : sends P (@raise A e).
Proof. intros st. apply extends_by_refl. Qed.

Lemma sends_append P sentence : sentence <> "" -> sends P (append sentence).
Proof.
  intros Hne st. exists [Wrote sentence]. simpl.
  repeat split. now repeat constructor.
Qed.

Lemma sends_run {A} (P : Query -> Prop) s q (rows : A) :
  P q -> sends P (run s q rows).
Proof.
  intros Hq st. exists [Sent q]. unfold run.
  destruct (fault s q); simpl; rewrite app_nil_r;
    (repeat split; now repeat constructor).
Qed.

Lemma sends_bind {A B} P (m : M A) (k : A -> M B) :
  sends P m -> (forall a, sends P (k a)) -> sends P (bind m k).
Proof.
  intros Hm Hk st. unfold bind. specialize (Hm st).
  destruct (m st) as [st1 [a|e]]; simpl in *; [|exact Hm].
  eapply extends_by_trans; [exact Hm | apply Hk].
Qed.

Lemma sends_for_each {A} P (l : list A) (body : A -> M unit) :
  (forall x, sends P (body x)) -> sends P (for_each l body).
Proof.
  intros Hb. induction l as [|x l IH]; simpl.
  - apply sends_ret.
  - apply sends_bind; [apply Hb | intros _; exact IH].
Qed.

Lemma sends_lower_of P v : sends P (lower_of v).
Proof. destruct v; [apply sends_ret | apply sends_raise]. Qed.

Lemma app_nonempty_l (a b : string) : a <> "" -> a ++ b <> "".
Proof. destruct a; [congruence | discriminate]. Qed.

Lemma app_nonempty_r (a b : string) : b <> "" -> a ++ b <> "".
Proof. destruct a; [trivial | discriminate]. Qed.

Lemma with_code_nonempty sentence code_sample :
  sentence <> "" -> with_code sentence code_sample <> "".
Proof.
  intros H. unfold with_code. destruct (truthy code_sample); [|exact H].
  now apply app_nonempty_l.
Qed.

Lemma sends_in_file_sentence P lead res : sends P (in_file_sentence lead res).
Proof.
  apply sends_bind; [apply sends_lower_of|]. intros t.
  apply sends_append, with_code_nonempty, app_nonempty_r. discriminate.
Qed.

Lemma sends_name_sentence P res : sends P (name_sentence res).
Proof.
  apply sends_bind; [apply sends_lower_of|]. intros t.
  apply sends_append, with_code_nonempty. discriminate.
Qed.

Lemma sends_desc_sentence P res : sends P (desc_sentence res).
Proof.
  apply sends_bind; [apply sends_lower_of|]. intros t.
  apply sends_append, with_code_nonempty. discriminate.
Qed.

Lemma sends_entities_info P l : sends P (entities_info l).
Proof.
  induction l as [|e l IH]; simpl; [apply sends_ret|].
  apply sends_bind; [apply sends_lower_of|]. intros t.
  apply sends_bind; [exact IH|]. intros info. apply sends_ret.
Qed.

Lemma sends_vector_stage (P : Query -> Prop) s emb :
  P function_query -> P file_query -> sends P (vector_stage s emb).
Proof.
  intros H1 H2. unfold vector_stage.
  apply sends_bind; [now apply sends_run|]. intros fr.
  apply sends_bind; [now apply sends_run|]. intros flr.
  apply sends_bind; [|intros _; apply sends_ret].
  apply sends_for_each. intros res. apply sends_in_file_sentence.
Qed.

Lemma sends_traversal_stage (P : Query -> Prop) s er :
  P traversal_query -> sends P (traversal_stage s er).
Proof.
  intros H. unfold traversal_stage. destruct er; [apply sends_ret|].
  apply sends_bind; [now apply sends_run|]. intros rows.
  apply sends_for_each. intros res. apply sends_in_file_sentence.
Qed.

Lemma sends_path_stage (P : Query -> Prop) s er :
  P path_query -> sends P (path_stage s er).
Proof.
  intros H. unfold path_stage. destruct (2 <=? List.length er); [|apply sends_ret].
  apply sends_bind; [now apply sends_run|]. intros rows.
  apply sends_for_each. intros res. apply sends_in_file_sentence.
Qed.

Lemma sends_keyword_stage (P : Query -> Prop) s uq :
  P name_query -> P desc_query -> sends P (keyword_stage s uq).
Proof.
  intros H1 H2. unfold keyword_stage.
  destruct (Keywords.extract_keywords uq); [apply sends_ret|].
  apply sends_bind; [now apply sends_run|]. intros rows.
  apply sends_bind; [apply sends_for_each; intros; apply sends_name_sentence|].
  intros _. apply sends_bind; [now apply sends_run|]. intros rows'.
  apply sends_for_each. intros res. apply sends_desc_sentence.
Qed.

Lemma sends_file_sentences (P : Query -> Prop) s res :
  (forall p, P (file_entities_query p)) -> sends P (file_sentences s res).
Proof.
  intros H. unfold file_sentences.
  apply sends_bind; [apply sends_append; discriminate|]. intros _.
  apply sends_bind; [now apply sends_run|]. intros [|e es]; [apply sends_ret|].
  apply sends_bind; [apply sends_entities_info|].
  intros [|i rest]; [apply sends_ret|]. apply sends_append. discriminate.
Qed.

Lemma sends_file_context_stage (P : Query -> Prop) s er :
  P file_context_query -> (forall p, P (file_entities_query p)) ->
  sends P (file_context_stage s er).
Proof.
  intros H1 H2. unfold file_context_stage. destruct er; [apply sends_ret|].
  destruct (file_paths_of _); [apply sends_ret|].
  apply sends_bind; [now apply sends_run|]. intros rows.
  apply sends_for_each. intros res. now apply sends_file_sentences.
Qed.

Lemma sends_try_body s emb uq : sends any_query (try_body s emb uq).
Proof.
  unfold try_body.
  apply sends_bind; [now apply sends_vector_stage|]. intros er.
  apply sends_bind; [now apply sends_traversal_stage|]. intros _.
  apply sends_bind; [now apply sends_path_stage|]. intros _.
  apply sends_bind; [now apply sends_keyword_stage|]. intros _.
  now apply sends_file_context_stage.
Qed.

(** *** A store next to the same store in good health *)

Lemma quiet_queries events :
  Forall (permitted no_query) events -> queries events = [].
Proof.
  intros H. apply permitted_queries in H.
  destruct (queries events) as [|q l]; [reflexivity|].
  inversion H; contradiction.
Qed.

Lemma simulates_quiet {A} s (m : M A) : sends no_query m -> simulates s m m.
Proof.
  intros H st. left. split; [reflexivity|].
  destruct (H st) as (events & T & F & _). exists events.
  split; [exact T|]. rewrite (quiet_queries events F). constructor.
Qed.

Lemma simulates_run {A} s q (rows : A) :
  simulates s (run s q rows) (run (healthy s) q rows).
Proof.
  intros st. unfold run. simpl. destruct (fault s q) as [e|] eqn:E.
  - right. exists [], q, e. simpl.
    repeat split; try assumption; try constructor. apply extends_by_refl.
  - left. split; [reflexivity|]. exists [Sent q]. simpl.
    split; [reflexivity | now repeat constructor].
Qed.

Lemma simulates_bind {A B} s (m h : M A) (k k' : A -> M B) :
  simulates s m h ->
  (forall a, simulates s (k a) (k' a)) ->
  (forall a, sends any_query (k' a)) ->
  simulates s (bind m k) (bind h k').
Proof.
  intros Hm Hk Hs st. unfold bind. specialize (Hm st).
  destruct (m st) as [st1 o1], (h st) as [st2 o2].
  destruct Hm as [[Heq (ev & Ht & Ha)] | (ev & q & e & Ho & Hf & Ht & Ha & Hx)];
    simpl in *.
  - inversion Heq; subst st2 o2. destruct o1 as [a|e].
    + specialize (Hk a st1).
      destruct (k a st1) as [st3 o3], (k' a st1) as [st4 o4].
      destruct Hk as [[Heq' (ev' & Ht' & Ha')]
                     | (ev' & q & e & Ho & Hf & Ht' & Ha' & Hx)]; simpl in *.
      * left. split; [exact Heq'|]. exists (ev ++ ev')%list. simpl.
        rewrite Ht', Ht, <- app_assoc, queries_app.
        split; [reflexivity | now apply Forall_app].
      * right. exists (ev ++ ev')%list, q, e. simpl.
        rewrite Ht', Ht, <- !app_assoc, queries_app.
        repeat split; try assumption. now apply Forall_app.
    + left. split; [reflexivity|]. now exists ev.
  - subst o1. right. exists ev, q, e. simpl.
    repeat split; try assumption.
    destruct o2 as [a|e2]; [|exact Hx].
    eapply extends_by_trans; [exact Hx | apply Hs].
Qed.

Lemma simulates_for_each {A} s (l : list A) (f g : A -> M unit) :
  (forall x, simulates s (f x) (g x)) ->
  (forall x, sends any_query (g x)) ->
  simulates s (for_each l f) (for_each l g).
Proof.
  intros Hf Hg. induction l as [|x l IH]; simpl.
  - apply simulates_quiet, sends_ret.
  - apply simulates_bind; [apply Hf | intros _; exact IH|].
    intros _. now apply sends_for_each.
Qed.

(** A loop that writes sentences behaves the same on both stores. *)
Lemma simulates_sentences {A} s (l : list A) (f : A -> M unit) :
  (forall P x, sends P (f x)) -> simulates s (for_each l f) (for_each l f).
Proof. intros H. apply simulates_quiet, sends_for_each, H. Qed.

Lemma simulates_vector_stage s emb :
  simulates s (vector_stage s emb) (vector_stage (healthy s) emb).
Proof.
  unfold vector_stage.
  apply simulates_bind; [apply simulates_run | |].
  - intros fr. apply simulates_bind; [apply simulates_run | |].
    + intros flr. apply simulates_quiet.
      apply sends_bind; [|intros _; apply sends_ret].
      apply sends_for_each. intros res. apply sends_in_file_sentence.
    + intros flr. apply sends_bind; [|intros _; apply sends_ret].
      apply sends_for_each. intros res. apply sends_in_file_sentence.
  - intros fr. apply sends_bind; [now apply sends_run|]. intros flr.
    apply sends_bind; [|intros _; apply sends_ret].
    apply sends_for_each. intros res. apply sends_in_file_sentence.
Qed.

Lemma simulates_traversal_stage s er :
  simulates s (traversal_stage s er) (traversal_stage (healthy s) er).
Proof.
  unfold traversal_stage. destruct er; [apply simulates_quiet, sends_ret|].
  apply simulates_bind; [apply simulates_run | |]; intros rows.
  - apply simulates_sentences. intros P x. apply sends_in_file_sentence.
  - apply sends_for_each. intros res. apply sends_in_file_sentence.
Qed.

Lemma simulates_path_stage s er :
  simulates s (path_stage s er) (path_stage (healthy s) er).
Proof.
  unfold path_stage.
  destruct (2 <=? List.length er); [|apply simulates_quiet, sends_ret].
  apply simulates_bind; [apply simulates_run | |]; intros rows.
  - apply simulates_sentences. intros P x. apply sends_in_file_sentence.
  - apply sends_for_each. intros res. apply sends_in_file_sentence.
Qed.

Lemma simulates_keyword_stage s uq :
  simulates s (keyword_stage s uq) (keyword_stage (healthy s) uq).
Proof.
  unfold keyword_stage.
  destruct (Keywords.extract_keywords uq); [apply simulates_quiet, sends_ret|].
  apply simulates_bind; [apply simulates_run | |]; intros rows.
  - apply simulates_bind.
    + apply simulates_sentences. intros P x. apply sends_name_sentence.
    + intros _. apply simulates_bind; [apply simulates_run | |]; intros rows'.
      * apply simulates_sentences. intros P x. apply sends_desc_sentence.
      * apply sends_for_each. intros res. apply sends_desc_sentence.
    + intros _. apply sends_bind; [now apply sends_run|]. intros rows'.
      apply sends_for_each. intros res. apply sends_desc_sentence.
  - apply sends_bind; [apply sends_for_each; intros; apply sends_name_sentence|].
    intros _. apply sends_bind; [now apply sends_run|]. intros rows'.
    apply sends_for_each. intros res. apply sends_desc_sentence.
Qed.

Lemma sends_listing P res (file_entities : list ChildRow) :
  sends P (match file_entities with
           | [] => ret tt
           | _ =>
               info <- entities_info file_entities ;;
               match info with
               | [] => ret tt
               | _ => append ("The file '" ++ Py.str (f_path res)
                              ++ "' contains: " ++ Py.join ", " info ++ ".")
               end
           end).
Proof.
  destruct file_entities as [|e es]; [apply sends_ret|].
  apply sends_bind; [apply sends_entities_info|].
  intros [|i rest]; [apply sends_ret|]. apply sends_append. discriminate.
Qed.

Lemma simulates_file_sentences s res :
  simulates s (file_sentences s res) (file_sentences (healthy s) res).
Proof.
  unfold file_sentences.
  apply simulates_bind.
  - apply simulates_quiet, sends_append. discriminate.
  - intros _. apply simulates_bind; [apply simulates_run | |]; intros rows.
    + apply simulates_quiet, sends_listing.
    + apply sends_listing.
  - intros _. apply sends_bind; [now apply sends_run|]. intros rows.
    apply sends_listing.
Qed.

Lemma simulates_file_context_stage s er :
  simulates s (file_context_stage s er) (file_context_stage (healthy s) er).
Proof.
  unfold file_context_stage. destruct er; [apply simulates_quiet, sends_ret|].
  destruct (file_paths_of _); [apply simulates_quiet, sends_ret|].
  apply simulates_bind; [apply simulates_run | |]; intros rows.
  - apply simulates_for_each; intros res.
    + apply simulates_file_sentences.
    + now apply sends_file_sentences.
  - apply sends_for_each. intros res. now apply sends_file_sentences.
Qed.

Lemma simulates_try_body s emb uq :
  simulates s (try_body s emb uq) (try_body (healthy s) emb uq).
Proof.
  unfold try_body.
  apply simulates_bind; [apply simulates_vector_stage | |]; intros er.
  - apply simulates_bind; [apply simulates_traversal_stage | |]; intros _.
    + apply simulates_bind; [apply simulates_path_stage | |]; intros _.
      * apply simulates_bind; [apply simulates_keyword_stage | |]; intros _.
        -- apply simulates_file_context_stage.
        -- now apply sends_file_context_stage.
      * apply sends_bind; [now apply sends_keyword_stage|]. intros _.
        now apply sends_file_context_stage.
    + apply sends_bind; [now apply sends_path_stage|]. intros _.
      apply sends_bind; [now apply sends_keyword_stage|]. intros _.
      now apply sends_file_context_stage.
  - apply sends_bind; [now apply sends_traversal_stage|]. intros _.
    apply sends_bind; [now apply sends_path_stage|]. intros _.
    apply sends_bind; [now apply sends_keyword_stage|]. intros _.
    now apply sends_file_context_stage.
Qed.

(** The healthy store answers every query, so its run ends without an
    error record only if no Python error occurs; in both cases the state
    it leaves has the evidence of its [try] block. *)
Lemma run_retrieval_context s emb uq :
  context (run_retrieval s emb uq)
  = context (fst (try_body s emb uq initial)).
Proof.
  unfold run_retrieval. now destruct (try_body s emb uq initial) as [st [a|e]].
Qed.

Lemma run_retrieval_trace s emb uq :
  trace (run_retrieval s emb uq) = trace (fst (try_body s emb uq initial)).
Proof.
  unfold run_retrieval. now destruct (try_body s emb uq initial) as [st [a|e]].
Qed.

(** The evidence is what the trace says was written. *)
Lemma try_body_context s emb uq :
  context (fst (try_body s emb uq initial))
  = sentences (trace (fst (try_body s emb uq initial)))
  /\ log (fst (try_body s emb uq initial)) = [].
Proof.
  destruct (sends_try_body s emb uq initial) as (events & T & _ & C & L).
  simpl in T, C. now rewrite T, C.
Qed.

(** C1, as the code has it. When the store fails a query the retrieval
    sends, sending that query is the last thing the retrieval does: no
    later stage runs and the failed query adds no evidence.  The error is
    caught and logged as the only record, the evidence is what was written
    before the query was sent, the same store in good health does the same
    up to that query and goes on from there, and the function still
    returns the assembled text. *)
Theorem query_failure_contained s emb uq q e :
  fault s q = Some e ->
  In (Sent q) (trace (run_retrieval s emb uq)) ->
  exists before after,
    trace (run_retrieval s emb uq) = (before ++ [Sent q])%list
    /\ Forall (answered s) (queries before)
    /\ context (run_retrieval s emb uq) = sentences before
    /\ log (run_retrieval s emb uq) = [error_record e]
    /\ trace (run_retrieval (healthy s) emb uq)
       = (before ++ [Sent q] ++ after)%list
    /\ retrieve_graph_context s emb uq = assemble (sentences before).
Proof.
  intros Hf Hin.
  pose proof (simulates_try_body s emb uq initial) as Hsim.
  pose proof (try_body_context s emb uq) as [Hctx Hlog].
  rewrite run_retrieval_trace in Hin.
  rewrite (run_retrieval_trace (healthy s)).
  unfold retrieve_graph_context, run_retrieval.
  destruct (try_body s emb uq initial) as [st o].
  destruct (try_body (healthy s) emb uq initial) as [st' o'].
  simpl in *.
  assert (Hans : forall events, Forall (answered s) (queries events) ->
                                ~ In (Sent q) events).
  { intros events Ha Hq. apply In_queries in Hq. rewrite Forall_forall in Ha.
    specialize (Ha q Hq). unfold answered in Ha. congruence. }
  destruct Hsim as [[_ (ev & Ht & Ha)]
                   | (ev & q' & e' & Ho & Hf' & Ht & Ha & (after & Ht' & _))];
    simpl in *.
  - exfalso. rewrite Ht in Hin. now apply (Hans ev Ha).
  - subst o. rewrite Ht in Hin. apply in_app_or in Hin as [Hin|[Heq|[]]];
      [exfalso; now apply (Hans ev Ha)|].
    inversion Heq; subst q'. assert (e' = e) by congruence. subst e'.
    assert (Hs : sentences (trace st) = sentences ev).
    { rewrite Ht, sentences_app. simpl. apply app_nil_r. }
    exists ev, after. simpl. rewrite Hctx, Hs, Hlog, Ht', Ht, <- app_assoc.
    repeat split. exact Ha.
Qed.

(** The failing traversal query of the example store: the error is
    logged, the three sentences of the vector stage are kept, and they
    open the evidence of the healthy store. *)
Lemma query_failure_contained_witness :
  exists before after,
    trace (run_retrieval Fixtures.config_store_traversal_down
                         Fixtures.embedding "explain parseConfig")
    = (before ++ [Sent traversal_query])%list
    /\ log (run_retrieval Fixtures.config_store_traversal_down
                          Fixtures.embedding "explain parseConfig")
       = [LogError
            "Neo4j Cypher error during context retrieval: procedure not found"]
    /\ trace (run_retrieval (healthy Fixtures.config_store_traversal_down)
                            Fixtures.embedding "explain parseConfig")
       = (before ++ [Sent traversal_query] ++ after)%list.
Proof.
  destruct (query_failure_contained
              Fixtures.config_store_traversal_down Fixtures.embedding
              "explain parseConfig" traversal_query
              (Neo4jError "procedure not found"))
    as (before & after & Ht & _ & _ & Hlog & Hh & _).
  - reflexivity.
  - vm_compute. tauto.
  - exists before, after. split; [exact Ht|]. split; [exact Hlog | exact Hh].
Defined.

(** C1 does not hold as stated: the example store matches the keyword
    "parseconfig" by name and, in good health, sends the keyword query;
    when it fails the traversal query, the keyword query is never sent,
    so the keyword stage does not run. *)
Lemma failed_stage_stops_later_stages :
  fault Fixtures.config_store_traversal_down traversal_query
  = Some (Neo4jError "procedure not found")
  /\ Cypher.name_results Fixtures.config_store_traversal_down
       (Keywords.extract_keywords "explain parseConfig") <> []
  /\ In name_query (queries (trace (run_retrieval Fixtures.config_store
                                                   Fixtures.embedding
                                                   "explain parseConfig")))
  /\ ~ In name_query
       (queries (trace (run_retrieval Fixtures.config_store_traversal_down
                                      Fixtures.embedding
                                      "explain parseConfig")))
  /\ queries (trace (run_retrieval Fixtures.config_store_traversal_down
                                   Fixtures.embedding "explain parseConfig"))
     = [function_query; file_query; traversal_query].
Proof.
  split; [reflexivity|]. split; [vm_compute; discriminate|].
  split; [vm_compute; tauto|]. split; [|reflexivity].
  vm_compute. intros [H|[H|[H|[]]]]; discriminate H.
Qed.

(** *** What the function returns *)

Lemma join_nonempty sep first rest : first <> "" -> join sep (first :: rest) <> "".
Proof.
  intros H. unfold join. simpl. destruct rest; [exact H|].
  now apply app_nonempty_l.
Qed.

Lemma run_retrieval_sentences s emb uq :
  Forall (fun sentence => sentence <> "") (context (run_retrieval s emb uq)).
Proof.
  rewrite run_retrieval_context.
  destruct (sends_try_body s emb uq initial) as (events & _ & F & C & _).
  rewrite C. simpl. now apply permitted_sentences in F.
Qed.

Lemma no_hits_no_evidence s emb uq :
  Cypher.function_results s emb = [] ->
  Cypher.file_results s emb = [] ->
  Cypher.name_results s (Keywords.extract_keywords uq) = [] ->
  Cypher.desc_results s (Keywords.extract_keywords uq) = [] ->
  context (fst (try_body s emb uq initial)) = [].
Proof.
  intros H1 H2 H3 H4.
  unfold try_body, vector_stage, keyword_stage, bind, run.
  rewrite H1, H2. simpl.
  destruct (fault s function_query); [reflexivity|].
  destruct (fault s file_query); [reflexivity|]. simpl.
  destruct (Keywords.extract_keywords uq) as [|k ks]; [reflexivity|].
  rewrite H3, H4. simpl.
  destruct (fault s name_query); [reflexivity|]. simpl.
  destruct (fault s desc_query); reflexivity.
Qed.

(** C3. The function never returns the empty string: for an empty
    evidence list it returns the sentinel, otherwise the sentences joined
    by newlines; and when neither index has a hit and neither keyword
    query has a match, the evidence list is empty and the sentinel is
    returned. *)
Theorem retrieve_graph_context_result s emb uq :
  retrieve_graph_context s emb uq <> ""
  /\ (context (run_retrieval s emb uq) = [] ->
      retrieve_graph_context s emb uq
      = "No specific context found in the graph.")
  /\ (context (run_retrieval s emb uq) <> [] ->
      retrieve_graph_context s emb uq
      = join nl (context (run_retrieval s emb uq)))
  /\ (Cypher.function_results s emb = [] ->
      Cypher.file_results s emb = [] ->
      Cypher.name_results s (Keywords.extract_keywords uq) = [] ->
      Cypher.desc_results s (Keywords.extract_keywords uq) = [] ->
      retrieve_graph_context s emb uq
      = "No specific context found in the graph.").
Proof.
  unfold retrieve_graph_context. split; [|split; [|split]].
  - pose proof (run_retrieval_sentences s emb uq) as H.
    destruct (context (run_retrieval s emb uq)) as [|x l]; [discriminate|].
    inversion H; subst. now apply join_nonempty.
  - now intros ->.
  - destruct (context (run_retrieval s emb uq)); [congruence | reflexivity].
  - intros H1 H2 H3 H4. rewrite run_retrieval_context.
    now rewrite no_hits_no_evidence.
Qed.

(** A store without nodes yields the sentinel. *)
Lemma retrieve_graph_context_result_witness :
  retrieve_graph_context Fixtures.empty_store Fixtures.embedding
                         "where is the parser"
  = "No specific context found in the graph.".
Proof.
  apply (proj2 (proj2 (proj2 (retrieve_graph_context_result
                                Fixtures.empty_store Fixtures.embedding
                                "where is the parser"))));
    reflexivity.
Defined.

(** *** The vector stage *)

Lemma vector_stage_results s emb st st' er :
  vector_stage s emb st = (st', Ret er) ->
  er = (Cypher.function_results s emb ++ Cypher.file_results s emb)%list.
Proof.
  unfold vector_stage, bind, run. intros H.
  destruct (fault s function_query); [discriminate|].
  destruct (fault s file_query); [discriminate|].
  destruct (for_each _ _ _) as [st3 [[]|e]]; [|discriminate].
  now inversion H.
Qed.

(** C4. The list the vector stage hands to the later stages is the
    function-index rows followed by the file-index rows, and within each
    of the two the scores never rise. *)
Theorem vector_results_order s emb st st' er :
  vector_stage s emb st = (st', Ret er) ->
  er = (Cypher.function_results s emb ++ Cypher.file_results s emb)%list
  /\ descending (Cypher.function_results s emb)
  /\ descending (Cypher.file_results s emb)
  /\ (forall i x, nth_error (Cypher.function_results s emb) i = Some x ->
                  nth_error er i = Some x)
  /\ (forall j, nth_error er (List.length (Cypher.function_results s emb) + j)
                = nth_error (Cypher.file_results s emb) j).
Proof.
  intros H. apply vector_stage_results in H. subst er.
  split; [reflexivity|].
  split; [apply CypherFacts.order_by_score_descending|].
  split; [apply CypherFacts.order_by_score_descending|].
  split.
  - intros i x Hx. rewrite nth_error_app1; [exact Hx|].
    apply nth_error_Some. congruence.
  - intros j. rewrite nth_error_app2 by lia. f_equal. lia.
Qed.

(** On the example store the merged list is parseConfig (0.82), loadFile
    (0.7), then the file config.py (0.65). *)
Lemma vector_results_order_witness :
  exists st er,
    vector_stage Fixtures.config_store Fixtures.embedding initial = (st, Ret er)
    /\ map (fun res => r_name (fst res)) er
       = [Some "parseConfig"; Some "loadFile"; Some "config.py"]
    /\ descending (Cypher.function_results Fixtures.config_store
                                           Fixtures.embedding).
Proof.
  eexists. eexists. split; [vm_compute; reflexivity|].
  split; [reflexivity|].
  refine (proj1 (proj2 (vector_results_order
                          Fixtures.config_store Fixtures.embedding initial
                          _ _ _))).
  vm_compute. reflexivity.
Defined.

(** *** The traversal stage on the example stores *)

(** The rows of loadFile and of the file are reached from parseConfig. *)
Lemma traversal_results_spec_witness :
  exists start p node,
    In start (traversal_starts Fixtures.config_store
                               ["parseConfig-src/config.py"])
    /\ In p (expandConfig Fixtures.config_store start traversal_config)
    /\ last_node p = Some node
    /\ node_id node <> node_id start
    /\ reached_row Fixtures.loadFile = reached_row node.
Proof.
  apply (proj2 (proj2 (CypherFacts.traversal_results_spec
                         Fixtures.config_store
                         ["parseConfig-src/config.py"]))).
  vm_compute. tauto.
Defined.

(** C6 does not hold as stated: on the example store loadFile is a seed
    (the second result of the vector stage) and the traversal returns its
    row, because it is reached from the other seed parseConfig. *)
Lemma traversal_returns_other_seed :
  let seeds := (Cypher.function_results Fixtures.config_store Fixtures.embedding
                ++ Cypher.file_results Fixtures.config_store
                                       Fixtures.embedding)%list in
  In (entity_row Fixtures.loadFile (Some "src/io.py")) (map fst seeds)
  /\ In (entity_row Fixtures.loadFile (Some "src/io.py"))
        (Cypher.traversal_results Fixtures.config_store (entity_ids seeds))
  /\ In (Fixtures.loadFile, Fixtures.parseConfig)
        (traversal_reached Fixtures.config_store (entity_ids seeds))
  /\ In Fixtures.loadFile
        (traversal_starts Fixtures.config_store (entity_ids seeds)).
Proof.
  repeat split; vm_compute; tauto.
Qed.

(** C2 on a file whose path holds a hyphen: the vector stage returns the
    file main.py of path repos/my-app/main.py, the store holds that very
    node with label File and that path, yet the traversal query cuts the
    seed id at every hyphen, looks for the path "repos/my" and finds no
    start node. *)
Theorem hyphen_seed_not_located :
  let seeds := (Cypher.function_results Fixtures.hyphen_store Fixtures.embedding
                ++ Cypher.file_results Fixtures.hyphen_store
                                       Fixtures.embedding)%list in
  map fst seeds = [entity_row Fixtures.main_py (Some "repos/my-app/main.py")]
  /\ entity_ids seeds = ["main.py-repos/my-app/main.py"]
  /\ Cypher.split "-" "main.py-repos/my-app/main.py"
     = ["main.py"; "repos/my"; "app/main.py"]
  /\ In Fixtures.main_py (nodes Fixtures.hyphen_store)
  /\ has_label "File" Fixtures.main_py = true
  /\ path Fixtures.main_py = Some "repos/my-app/main.py"
  /\ traversal_starts Fixtures.hyphen_store (entity_ids seeds) = []
  /\ Cypher.traversal_results Fixtures.hyphen_store (entity_ids seeds) = []
  /\ expandConfig Fixtures.hyphen_store Fixtures.main_py traversal_config
     = [[Fixtures.main_py; Fixtures.run_fn]].
Proof.
  repeat split; vm_compute; tauto.
Qed.

(** *** The path stage *)






End EngineFacts.

Module EmbeddingFacts.
Import Py Engine Embedding.

(** C8, as the code has it. For the empty text the gateway logs a
    warning and returns the empty result without a call to the provider;
    every other text, a blank one included, is sent to the provider and
    the provider's outcome is the result. *)
Theorem generate_embeddings_guard provider tr text :
  (text = "" ->
   generate_embeddings provider text tr
   = (mkTrace (provider_calls tr)
              (records tr
               ++ [LogWarning "Attempted to generate embedding for empty text."])%list,
      Ret []))
  /\ (text <> "" ->
      provider_calls (fst (generate_embeddings provider text tr))
      = (provider_calls tr ++ [text])%list
      /\ snd (generate_embeddings provider text tr) = provider text).
Proof.
  split.
  - now intros ->.
  - intros Hne. destruct text as [|c text]; [congruence|].
    unfold generate_embeddings. now destruct (provider (String c text)).
Qed.

Lemma generate_embeddings_guard_witness :
  provider_calls (fst (generate_embeddings (fun _ => Ret [1 # 2]) ""
                                           (mkTrace [] []))) = []
  /\ provider_calls (fst (generate_embeddings (fun _ => Ret [1 # 2])
                                              "explain parseConfig"
                                              (mkTrace [] [])))
     = ["explain parseConfig"].
Proof.
  split.
  - now rewrite (proj1 (generate_embeddings_guard
                          (fun _ => Ret [1 # 2]) (mkTrace [] []) "") eq_refl).
  - apply (proj2 (generate_embeddings_guard
                    (fun _ => Ret [1 # 2]) (mkTrace [] [])
                    "explain parseConfig")).
    discriminate.
Defined.

(** C8 does not hold as stated: a text of one space is blank, yet it is
    sent to the provider and the provider's vector is returned. *)
Lemma blank_text_reaches_provider :
  blank " " = true
  /\ generate_embeddings (fun _ => Ret [1 # 2]) " " (mkTrace [] [])
     = (mkTrace [" "] [], Ret [1 # 2]).
Proof. split; reflexivity. Qed.

End EmbeddingFacts.

Module ApiFacts.
Import Py Graph Engine Api.

(** Whatever exception leaves a view, the handler answers with the
    envelope. *)
Lemma handle_exception_envelope e : is_envelope (handle_exception e).
Proof.
  unfold is_envelope.
  destruct e as [m|m|r c|code d|t]; simpl;
    try (repeat split; simpl; tauto).
  destruct (code =? 400); [repeat split; simpl; tauto|].
  destruct (code =? 404); repeat split; simpl; tauto.
Qed.

Lemma chat_shapes env request_json :
  let r := serve env (PostChat request_json) in
  success_shape (PostChat request_json) r
  \/ is_envelope r
  \/ r = missing_query_response
  \/ r = no_embedding_response.
Proof.
  unfold serve, chat_with_graph.
  destruct request_json as [data|e]; simpl;
    [|right; left; apply handle_exception_envelope].
  destruct (query data) as [[|c q]|]; simpl; try (right; right; left; reflexivity).
  destruct (get_neo4j_driver env) as [session|e]; simpl;
    [|right; left; apply handle_exception_envelope].
  destruct (provider env (String c q)) as [[|x v]|e]; simpl;
    [right; right; right; reflexivity | |
     right; left; apply handle_exception_envelope].
  destruct (conversation_context env (history data)) as [ctx|e]; simpl;
    [|right; left; apply handle_exception_envelope].
  destruct (generate env ctx _ _) as [text|e]; simpl;
    [|right; left; apply handle_exception_envelope].
  left. split; reflexivity.
Qed.

Lemma healthz_shapes env :
  let r := serve env GetHealthz in
  success_shape GetHealthz r
  \/ (keys r = ["status"; "message"]
      /\ (status r = 503 \/ status r = 500)
      /\ nth_error (body r) 0 = Some ("status", JString "ERROR")).
Proof.
  unfold serve, health_check.
  destruct (get_neo4j_driver env) as [session|e] eqn:Hd; simpl.
  - destruct (verify_connectivity env) as [e|]; simpl.
    + right. destruct e; simpl; tauto.
    + destruct (provider env "health check test"); simpl;
        [left; split; reflexivity | right; tauto].
  - right. destruct e; simpl; tauto.
Qed.

Lemma clear_database_shapes env :
  let r := serve env PostClearDatabase in
  success_shape PostClearDatabase r
  \/ is_envelope r
  \/ (keys r = ["success"; "message"] /\ status r = 500
      /\ nth_error (body r) 0 = Some ("success", JBool false)).
Proof.
  unfold serve, clear_database.
  assert (Hexn : forall e,
             let r := match (match e with
                             | ConnectionError message =>
                                 Raise (ConnectionError message)
                             | Neo4jError message =>
                                 Ret (mkResponse
                                        [("success", JBool false);
                                         ("message",
                                          JString ("Database error: " ++ message))]
                                        500)
                             | _ =>
                                 Ret (mkResponse
                                        [("success", JBool false);
                                         ("message",
                                          JString ("Unexpected error: "
                                                   ++ exn_text e))] 500)
                             end) with
                      | Ret r => r
                      | Raise e' => handle_exception e'
                      end in
             is_envelope r
             \/ (keys r = ["success"; "message"] /\ status r = 500
                 /\ nth_error (body r) 0 = Some ("success", JBool false))).
  { intros e. destruct e; simpl; try (right; tauto).
    left. apply (handle_exception_envelope (ConnectionError message)). }
  destruct (get_neo4j_driver env) as [session|e]; simpl; [|right; apply Hexn].
  destruct (delete_relationships env) as [e|]; simpl; [right; apply Hexn|].
  destruct (delete_nodes env) as [e|]; simpl; [right; apply Hexn|].
  left. split; reflexivity.
Qed.

(** C9, as the code has it. A response is the success body of its route,
    or the error envelope (which every exception that leaves a view
    gets), or one of four other bodies: the chat route's answer to a
    missing query (400) and to an empty embedding (500), the health
    route's status ERROR with a message (503 or 500), and the
    clear-database route's success false with a message (500).  In a
    successful chat response [context_used] is what
    [retrieve_graph_context] returned for the query of the request, its
    embedding and the store the service is connected to: the sentinel
    when that retrieval gathered no evidence. *)
Theorem serve_shapes env req :
  (let r := serve env req in
   success_shape req r
   \/ is_envelope r
   \/ (exists request_json, req = PostChat request_json
                            /\ (r = missing_query_response
                                \/ r = no_embedding_response))
   \/ (req = GetHealthz
       /\ keys r = ["status"; "message"]
       /\ (status r = 503 \/ status r = 500)
       /\ nth_error (body r) 0 = Some ("status", JString "ERROR"))
   \/ (req = PostClearDatabase
       /\ keys r = ["success"; "message"] /\ status r = 500
       /\ nth_error (body r) 0 = Some ("success", JBool false)))
  /\ (forall request_json,
         req = PostChat request_json ->
         status (serve env req) = 200 ->
         exists data user_query session emb text,
           request_json = Ret data
           /\ query data = Some user_query
           /\ driver env = Connected session
           /\ provider env user_query = Ret emb
           /\ body (serve env req)
              = [("response", JString text);
                 ("context_used",
                  JString (retrieve_graph_context session emb user_query))]
           /\ (Engine.context (run_retrieval session emb user_query) = [] ->
               body (serve env req)
               = [("response", JString text);
                  ("context_used", JString NO_CONTEXT)])).
Proof.
  split.
  - destruct req as [request_json| | |code description]; cbv zeta.
    + destruct (chat_shapes env request_json) as [H|[H|H]]; [tauto | tauto|].
      right. right. left. now exists request_json.
    + destruct (healthz_shapes env) as [H|H]; tauto.
    + destruct (clear_database_shapes env) as [H|[H|H]]; tauto.
    + right. left. apply handle_exception_envelope.
  - intros request_json -> Hs.
    pose proof (handle_exception_envelope) as Henv.
    assert (Hno : forall e, status (handle_exception e) = 200 -> False).
    { intros e H. destruct (Henv e) as (_ & Hin & _). rewrite H in Hin.
      simpl in Hin. intuition discriminate. }
    unfold serve, chat_with_graph in *.
    destruct request_json as [data|e]; simpl in *; [|now apply Hno in Hs].
    destruct (query data) as [[|c q]|] eqn:Hq; simpl in *; try discriminate.
    destruct (get_neo4j_driver env) as [session|e] eqn:Hd; simpl in *;
      [|now apply Hno in Hs].
    destruct (provider env (String c q)) as [[|x v]|e] eqn:Hp; simpl in *;
      [discriminate | | now apply Hno in Hs].
    destruct (conversation_context env (history data)) as [ctx|e]; simpl in *;
      [|now apply Hno in Hs].
    destruct (generate env ctx _ _) as [text|e]; simpl in *;
      [|now apply Hno in Hs].
    exists data, (String c q), session, (x :: v), text.
    split; [reflexivity|]. split; [exact Hq|]. split.
    { unfold get_neo4j_driver in Hd.
      destruct (driver env); [now inversion Hd | discriminate | discriminate]. }
    split; [exact Hp|]. split; [reflexivity|].
    intros Hempty. unfold retrieve_graph_context. now rewrite Hempty.
Qed.

(** A chat request in a working world whose store is empty: the answer
    carries the sentinel. *)
Lemma serve_shapes_witness :
  exists text,
    body (serve Fixtures.empty_env
                (PostChat (Ret (mkData (Some "explain parseConfig") []))))
    = [("response", JString text); ("context_used", JString NO_CONTEXT)].
Proof.
  destruct (proj2 (serve_shapes
                     Fixtures.empty_env
                     (PostChat (Ret (mkData (Some "explain parseConfig") []))))
                  (Ret (mkData (Some "explain parseConfig") []))
                  eq_refl eq_refl)
    as (data & user_query & session & emb & text & Hd & Hq & Hs & He & _ & H).
  exists text. apply H.
  injection Hd as <-. injection Hq as <-. injection Hs as <-.
  injection He as <-. reflexivity.
Defined.

(** C9 does not hold as stated: a chat request without query is answered
    with status 400 and a body whose only key is [response], which is
    neither a successful response nor the envelope. *)
Lemma missing_query_is_no_envelope :
  let r := serve Fixtures.working_env (PostChat (Ret (mkData None []))) in
  status r = 400
  /\ keys r = ["response"]
  /\ ~ is_envelope r
  /\ ~ success_shape (PostChat (Ret (mkData None []))) r.
Proof.
  repeat split; try reflexivity.
  - intros (H & _). discriminate H.
  - intros (H & _). discriminate H.
Qed.

End ApiFacts.


(* ================================================================== *)
(** * Further properties of the code *)

Module GatewayFacts.
Import Py Engine Embedding.



End GatewayFacts.


Module SearchFacts.
Import Py Graph Cypher Engine.

(** *** CONTAINS *)

Lemma prefix_spec sub : forall s,
  String.prefix sub s = true <-> exists post, s = sub ++ post.
Proof.
  induction sub as [|a sub IH]; intros s.
  - split; [intros _; now exists s | destruct s; reflexivity].
  - destruct s as [|b s]; simpl;
      [split; [discriminate | intros [post H]; discriminate]|].
    destruct (ascii_dec a b) as [<-|Hne].
    + rewrite IH. split; intros [post H]; exists post; congruence.
    + split; [discriminate | intros [post H]; congruence].
Qed.

Lemma contains_spec s : forall sub,
  contains s sub = true <-> exists pre post, s = pre ++ sub ++ post.
Proof.
  induction s as [|c s IH]; intros sub;
    [change (contains "" sub) with (String.prefix sub "" || false)
    |change (contains (String c s) sub)
       with (String.prefix sub (String c s) || contains s sub)];
    rewrite orb_true_iff, prefix_spec.
  - split.
    + intros [[post H]|H]; [now exists "", post | discriminate].
    + intros (pre & post & H). left. destruct pre; [now exists post | discriminate].
  - rewrite IH. split.
    + intros [[post H]|(pre & post & H)]; [now exists "", post|].
      exists (String c pre), post. simpl. now rewrite H.
    + intros (pre & post & H). destruct pre as [|c' pre]; [left; now exists post|].
      right. exists pre, post. simpl in H. congruence.
Qed.

(** The keyword searches look for the query's words without regard to
    case: a node satisfies the search on a field exactly when some word
    of the query, longer than two characters and no stop word, occurs in
    lower case inside the lower-cased field; a node without the field
    never does.  At most five rows come back, each of a node that
    satisfies the search, and all of them when there are five or
    fewer. *)
Theorem keyword_search_matches (field : Node -> option string) s uq :
  (forall n,
      keyword_hit field (Keywords.extract_keywords uq) n = true <->
      exists w v pre post,
        In w (Py.split uq) /\ 2 < String.length w
        /\ ~ In (lower w) Keywords.stop_words
        /\ field n = Some v
        /\ lower v = pre ++ lower w ++ post)
  /\ List.length (keyword_results field s (Keywords.extract_keywords uq)) <= 5
  /\ (forall row,
         In row (keyword_results field s (Keywords.extract_keywords uq)) ->
         exists n, In n (nodes s)
                   /\ keyword_hit field (Keywords.extract_keywords uq) n = true
                   /\ row = entity_row n (file_path n))
  /\ (List.length (filter (keyword_hit field (Keywords.extract_keywords uq))
                          (nodes s)) <= 5 ->
      keyword_results field s (Keywords.extract_keywords uq)
      = map (fun n => entity_row n (file_path n))
            (filter (keyword_hit field (Keywords.extract_keywords uq))
                    (nodes s))).
Proof.
  split; [|split; [|split]].
  - intros n. unfold keyword_hit. rewrite existsb_exists. split.
    + intros (k & Hk & Hc).
      rewrite KeywordFacts.extract_keywords_tokens in Hk.
      apply KeywordFacts.In_keywords_of_tokens in Hk
        as [(w & Hw & Hlen & ->) Hs].
      destruct (field n) as [v|]; [|discriminate].
      apply contains_spec in Hc as (pre & post & Hc).
      exists w, v, pre, post. repeat split; try assumption.
      intros Hin. apply KeywordFacts.is_stop_word_In in Hin. congruence.
    + intros (w & v & pre & post & Hw & Hlen & Hs & Hf & Hc).
      exists (lower w). split.
      * rewrite KeywordFacts.extract_keywords_tokens.
        apply KeywordFacts.In_keywords_of_tokens. split; [now exists w|].
        destruct (Keywords.is_stop_word (lower w)) eqn:E; [|reflexivity].
        apply KeywordFacts.is_stop_word_In in E. contradiction.
      * rewrite Hf. apply contains_spec. now exists pre, post.
  - apply firstn_le_length.
  - intros row Hin. unfold keyword_results in Hin.
    apply CypherFacts.firstn_In, in_map_iff in Hin as (n & <- & Hn).
    apply filter_In in Hn as [Hn Hhit]. now exists n.
  - intros Hlen. unfold keyword_results. apply firstn_all2.
    now rewrite length_map.
Qed.

Lemma keyword_search_matches_witness :
  exists n,
    In n (nodes Fixtures.config_store)
    /\ keyword_hit name (Keywords.extract_keywords "explain PARSECONFIG") n
       = true
    /\ entity_row Fixtures.parseConfig (Some "src/config.py")
       = entity_row n (file_path n).
Proof.
  apply (proj1 (proj2 (proj2 (keyword_search_matches
                                name Fixtures.config_store
                                "explain PARSECONFIG")))).
  vm_compute. tauto.
Defined.

(** *** The file paths of stage 5 *)

(** The paths given to stage 5's file query are the non-empty [filePath]
    values of the vector results, each once. *)
Theorem file_paths_of_spec er :
  NoDup (file_paths_of er)
  /\ forall p, In p (file_paths_of er) <->
               p <> "" /\ exists res, In res er /\ r_filePath (fst res) = Some p.
Proof.
  unfold file_paths_of. split; [apply NoDup_nodup|].
  intros p. rewrite nodup_In, in_flat_map. split.
  - intros (res & Hres & Hin).
    destruct (r_filePath (fst res)) as [[|c q]|] eqn:E; simpl in Hin;
      try contradiction.
    destruct Hin as [<-|[]]. split; [discriminate | now exists res].
  - intros (Hne & res & Hres & E). exists res. split; [exact Hres|].
    rewrite E. destruct p; [contradiction | now left].
Qed.

(** *** The start nodes of the traversal *)

Lemma eq_prop_some a x : eq_prop a (Some x) = true <-> a = Some x.
Proof.
  rewrite CypherFacts.eq_prop_true. split; [tauto|].
  intros ->. split; [reflexivity | discriminate].
Qed.

Lemma start_matches_spec nm filePath start :
  start_matches (Some nm) (Some filePath) start = true <->
  (has_label "Function" start = true /\ name start = Some nm
   /\ file_path start = Some filePath)
  \/ (has_label "File" start = true /\ path start = Some filePath).
Proof.
  unfold start_matches.
  rewrite orb_true_iff, !andb_true_iff, !eq_prop_some. tauto.
Qed.

(** When no name and no file path of the vector results holds a hyphen,
    the traversal starts from exactly these nodes: the functions that
    bear the name and file path of a result, and the files whose path is
    the file path of a result, that of a function result included.  The
    name and path looked for are the printed ones, the word None for a
    missing value. *)
Theorem seeds_located s er :
  Forall (fun res => free_of "-" (Py.str (r_name (fst res))) = true
                     /\ free_of "-" (Py.str (r_filePath (fst res))) = true)
         er ->
  forall start,
    In start (traversal_starts s (entity_ids er)) <->
    In start (nodes s)
    /\ exists res,
         In res er
         /\ ((has_label "Function" start = true
              /\ name start = Some (Py.str (r_name (fst res)))
              /\ file_path start = Some (Py.str (r_filePath (fst res))))
             \/ (has_label "File" start = true
                 /\ path start = Some (Py.str (r_filePath (fst res))))).
Proof.
  intros Hfree start. rewrite Forall_forall in Hfree.
  unfold traversal_starts, entity_ids. rewrite in_flat_map. split.
  - intros (id & Hid & Hin). apply in_map_iff in Hid as (res & <- & Hres).
    destruct (Hfree res Hres) as [Hn Hp].
    change (Py.str (r_name (fst res)) ++ "-" ++ Py.str (r_filePath (fst res)))
      with (Py.str (r_name (fst res))
            ++ String "-"%char (Py.str (r_filePath (fst res)))) in Hin.
    rewrite (CypherFacts.split_pair _ _ _ Hn Hp) in Hin. simpl in Hin.
    apply filter_In in Hin as [Hin Hm]. apply start_matches_spec in Hm.
    split; [exact Hin | now exists res].
  - intros (Hin & res & Hres & Hm).
    exists (Py.str (r_name (fst res)) ++ "-" ++ Py.str (r_filePath (fst res))).
    split; [apply in_map_iff; now exists res|].
    destruct (Hfree res Hres) as [Hn Hp].
    change (Py.str (r_name (fst res)) ++ "-" ++ Py.str (r_filePath (fst res)))
      with (Py.str (r_name (fst res))
            ++ String "-"%char (Py.str (r_filePath (fst res)))).
    rewrite (CypherFacts.split_pair _ _ _ Hn Hp). simpl.
    apply filter_In. split; [exact Hin | now apply start_matches_spec].
Qed.

(** On the example store the function parseConfig is a start node, and
    so is the file of its path. *)
Lemma seeds_located_witness :
  In Fixtures.config_py
     (traversal_starts Fixtures.config_store
        (entity_ids (Cypher.function_results Fixtures.config_store
                                             Fixtures.embedding))).
Proof.
  apply (seeds_located Fixtures.config_store
           (Cypher.function_results Fixtures.config_store Fixtures.embedding)).
  - vm_compute. repeat constructor.
  - split; [vm_compute; tauto|].
    exists (entity_row Fixtures.parseConfig (Some "src/config.py"), 82 # 100).
    split; [vm_compute; tauto|]. right. split; reflexivity.
Defined.

End SearchFacts.


Module PlanFacts.
Import Py Graph Cypher Engine Plan.

(** *** Opening parts *)

Lemma begins_refl {A} (l : list A) : begins l l.
Proof. exists []. now rewrite app_nil_r. Qed.

Lemma begins_nil {A} (l : list A) : begins [] l.
Proof. now exists l. Qed.

Lemma begins_app {A} (p a b : list A) :
  begins a b -> begins (p ++ a)%list (p ++ b)%list.
Proof. intros [rest ->]. exists rest. now rewrite app_assoc. Qed.

Lemma begins_weaken {A} (a b c : list A) : begins a b -> begins a (b ++ c)%list.
Proof. intros [rest ->]. exists (rest ++ c)%list. now rewrite app_assoc. Qed.

Lemma begins_length {A} (a b : list A) :
  begins a b -> List.length a <= List.length b.
Proof. intros [rest ->]. rewrite length_app. lia. Qed.

Lemma begins_map {A B} (f : A -> B) a b :
  begins a b -> begins (map f a) (map f b).
Proof. intros [rest ->]. exists (map f rest). apply map_app. Qed.

Lemma begins_flat_map {A B} (f : A -> list B) a b :
  begins a b -> begins (flat_map f a) (flat_map f b).
Proof. intros [rest ->]. exists (flat_map f rest). apply flat_map_app. Qed.

(** *** Statements that follow their events *)

Lemma follows_ret {A} (a : A) : follows [] (fun x => x = a) (ret a).
Proof. intros st. exists []. simpl. now rewrite app_nil_r. Qed.

Lemma follows_raise {A} events (P : A -> Prop) e : follows events P (raise e).
Proof.
  intros st. exists []. simpl. rewrite app_nil_r.
  split; [reflexivity | apply begins_nil].
Qed.

Lemma follows_append sentence : follows [Wrote sentence] anything (append sentence).
Proof. intros st. exists [Wrote sentence]. simpl. repeat split. Qed.

Lemma follows_run {A} s q (rows : A) :
  follows [Sent q] (fun x => x = rows) (run s q rows).
Proof.
  intros st. exists [Sent q]. unfold run.
  destruct (fault s q); simpl; repeat split. apply begins_refl.
Qed.

Lemma follows_weaken {A} events (P P' : A -> Prop) (m : M A) :
  (forall a, P a -> P' a) -> follows events P m -> follows events P' m.
Proof.
  intros HP H st. destruct (H st) as (done & T & Ho). exists done.
  split; [exact T|]. destruct (snd (m st)); [|exact Ho].
  destruct Ho as [-> Ha]. split; [reflexivity | now apply HP].
Qed.

Lemma follows_bind {A B} e1 e2 (P : A -> Prop) (Q : B -> Prop)
  (m : M A) (k : A -> M B) :
  follows e1 P m ->
  (forall a, P a -> follows e2 Q (k a)) ->
  follows (e1 ++ e2)%list Q (bind m k).
Proof.
  intros Hm Hk st. unfold bind. destruct (Hm st) as (d1 & T1 & O1).
  destruct (m st) as [st1 [a|e]]; simpl in *.
  - destruct O1 as [-> Pa]. destruct (Hk a Pa st1) as (d2 & T2 & O2).
    exists (e1 ++ d2)%list. rewrite T2, T1, <- app_assoc.
    split; [reflexivity|].
    destruct (snd (k a st1)).
    + destruct O2 as [-> Qb]. now split.
    + now apply begins_app.
  - exists d1. split; [exact T1 | now apply begins_weaken].
Qed.

Lemma follows_for_each {A} (ev : A -> list Event) (l : list A)
  (body : A -> M unit) :
  (forall x, follows (ev x) anything (body x)) ->
  follows (flat_map ev l) anything (for_each l body).
Proof.
  intros Hb. induction l as [|x l IH]; simpl.
  - eapply follows_weaken; [|apply follows_ret]. now intros.
  - apply follows_bind with (P := anything); [apply Hb | intros _ _; exact IH].
Qed.

Lemma wrote_map {A} (f : A -> option string) l :
  wrote (map f l) = flat_map (fun x => wrote [f x]) l.
Proof.
  unfold wrote, texts. induction l as [|x l IH]; [reflexivity|].
  simpl. rewrite map_app, IH. f_equal. now rewrite app_nil_r.
Qed.

Lemma follows_in_file_sentence lead res :
  follows (wrote [in_file_text lead res]) anything (in_file_sentence lead res).
Proof.
  intros st. unfold in_file_sentence, in_file_text, wrote, texts, bind, lower_of.
  destruct (r_type res); simpl.
  - eexists. split; [reflexivity | now split].
  - exists []. rewrite app_nil_r. split; [reflexivity | apply begins_nil].
Qed.

Lemma follows_name_sentence res :
  follows (wrote [name_text res]) anything (name_sentence res).
Proof.
  intros st. unfold name_sentence, name_text, wrote, texts, bind, lower_of.
  destruct (r_type res); simpl.
  - eexists. split; [reflexivity | now split].
  - exists []. rewrite app_nil_r. split; [reflexivity | apply begins_nil].
Qed.

Lemma follows_desc_sentence res :
  follows (wrote [desc_text res]) anything (desc_sentence res).
Proof.
  intros st. unfold desc_sentence, desc_text, wrote, texts, bind, lower_of.
  destruct (r_type res); simpl.
  - eexists. split; [reflexivity | now split].
  - exists []. rewrite app_nil_r. split; [reflexivity | apply begins_nil].
Qed.

Lemma follows_sentences {A} (f : A -> option string) (body : A -> M unit) l :
  (forall x, follows (wrote [f x]) anything (body x)) ->
  follows (wrote (map f l)) anything (for_each l body).
Proof. intros H. rewrite wrote_map. now apply follows_for_each. Qed.

(** *** The stages follow their plans *)

Lemma follows_vector_stage s emb :
  follows (vector_events (entity_results s emb))
          (fun er => er = entity_results s emb) (vector_stage s emb).
Proof.
  unfold vector_stage, vector_events.
  set (W := wrote _).
  replace (Sent function_query :: Sent file_query :: W)
    with ([Sent function_query] ++ [Sent file_query] ++ W ++ [])%list
    by (simpl; now rewrite app_nil_r).
  eapply follows_bind; [apply follows_run|]. intros fr ->.
  eapply follows_bind; [apply follows_run|]. intros flr ->.
  eapply follows_bind with (P := anything).
  - apply (follows_sentences (fun res => in_file_text "" (fst res))).
    intros res. apply follows_in_file_sentence.
  - intros _ _. apply follows_ret.
Qed.

Lemma follows_traversal_stage s er :
  follows (traversal_events s er) anything (traversal_stage s er).
Proof.
  unfold traversal_stage, traversal_events. destruct er as [|r er].
  - eapply follows_weaken; [|apply follows_ret]. now intros.
  - change (Sent traversal_query :: ?W) with ([Sent traversal_query] ++ W)%list.
    eapply follows_bind; [apply follows_run|]. intros rows ->.
    apply follows_sentences. intros res. apply follows_in_file_sentence.
Qed.

Lemma follows_path_stage s er :
  follows (path_events s er) anything (path_stage s er).
Proof.
  unfold path_stage, path_events. destruct (2 <=? List.length er).
  - change (Sent path_query :: ?W) with ([Sent path_query] ++ W)%list.
    eapply follows_bind; [apply follows_run|]. intros rows ->.
    apply follows_sentences. intros res. apply follows_in_file_sentence.
  - eapply follows_weaken; [|apply follows_ret]. now intros.
Qed.

Lemma follows_keyword_stage s uq :
  follows (keyword_events s uq) anything (keyword_stage s uq).
Proof.
  unfold keyword_stage, keyword_events.
  destruct (Keywords.extract_keywords uq) as [|k ks].
  - eapply follows_weaken; [|apply follows_ret]. now intros.
  - set (N := wrote (map name_text _)). set (D := wrote (map desc_text _)).
    change ((Sent name_query :: N) ++ Sent desc_query :: D)%list
      with ([Sent name_query] ++ N ++ [Sent desc_query] ++ D)%list.
    eapply follows_bind; [apply follows_run|]. intros rows ->.
    eapply follows_bind with (P := anything).
    + apply follows_sentences. intros res. apply follows_name_sentence.
    + intros _ _. eapply follows_bind; [apply follows_run|]. intros rows ->.
      apply follows_sentences. intros res. apply follows_desc_sentence.
Qed.

(** The loop over the children of a file writes nothing; it raises, or it
    gives the entries of the children. *)
Lemma entities_info_run l st :
  entities_info l st = (st, Ret (flat_map child_entry l))
  \/ exists e, entities_info l st = (st, Raise e).
Proof.
  induction l as [|c l IH]; simpl; [now left|].
  unfold bind, lower_of, child_entry.
  destruct (c_type c) as [t|]; simpl; [|right; now eexists].
  destruct IH as [->|[e ->]]; [left | right; now eexists].
  unfold ret. now destruct (truthy (c_name c)).
Qed.

Lemma follows_listing res (file_entities : list ChildRow) :
  follows (map Wrote (listing_text res file_entities)) anything
          (match file_entities with
           | [] => ret tt
           | _ =>
               info <- entities_info file_entities ;;
               match info with
               | [] => ret tt
               | _ => append ("The file '" ++ Py.str (f_path res)
                              ++ "' contains: " ++ Py.join ", " info ++ ".")
               end
           end).
Proof.
  intros st. unfold listing_text.
  destruct file_entities as [|c l].
  - simpl. exists []. rewrite app_nil_r. now repeat split.
  - cbv beta iota. unfold bind.
    destruct (entities_info_run (c :: l) st) as [H|[e H]]; rewrite H.
    + destruct (flat_map child_entry (c :: l)); simpl.
      * exists []. rewrite app_nil_r. now repeat split.
      * eexists. split; [reflexivity | now split].
    + exists []. simpl. rewrite app_nil_r. split; [reflexivity | apply begins_nil].
Qed.

Lemma follows_file_sentences s res :
  follows (file_events s res) anything (file_sentences s res).
Proof.
  unfold file_sentences, file_events.
  change (Wrote ?a :: Sent ?q :: ?L) with ([Wrote a] ++ [Sent q] ++ L)%list.
  eapply follows_bind with (P := anything); [apply follows_append|].
  intros _ _. eapply follows_bind; [apply follows_run|]. intros rows ->.
  apply follows_listing.
Qed.

Lemma follows_file_context_stage s er :
  follows (file_context_events s er) anything (file_context_stage s er).
Proof.
  unfold file_context_stage, file_context_events. destruct er as [|r er].
  - simpl. eapply follows_weaken; [|apply follows_ret]. now intros.
  - destruct (file_paths_of (r :: er)) as [|p ps].
    + eapply follows_weaken; [|apply follows_ret]. now intros.
    + change (Sent file_context_query :: ?L)
        with ([Sent file_context_query] ++ L)%list.
      eapply follows_bind; [apply follows_run|]. intros rows ->.
      apply follows_for_each. intros res. apply follows_file_sentences.
Qed.

Lemma follows_try_body s emb uq :
  follows (plan s emb uq) anything (try_body s emb uq).
Proof.
  unfold try_body, plan.
  eapply follows_bind; [apply follows_vector_stage|]. intros er ->.
  eapply follows_bind; [apply follows_traversal_stage|]. intros _ _.
  eapply follows_bind; [apply follows_path_stage|]. intros _ _.
  eapply follows_bind; [apply follows_keyword_stage|]. intros _ _.
  apply follows_file_context_stage.
Qed.

(** A run logs nothing exactly when its [try] block ends without an
    error. *)
Lemma quiet_log_iff s emb uq :
  log (run_retrieval s emb uq) = [] <->
  exists st, try_body s emb uq initial = (st, Ret tt).
Proof.
  pose proof (EngineFacts.try_body_context s emb uq) as [_ Hlog].
  unfold run_retrieval. destruct (try_body s emb uq initial) as [st [[]|e]];
    simpl in *.
  - split; [intros _; now exists st | intros _; exact Hlog].
  - rewrite Hlog. split; [discriminate | intros [st' H]; discriminate].
Qed.

(** Every run does an opening part of the plan, and all of it when it
    logs no error. *)
Lemma run_follows_plan s emb uq :
  begins (trace (run_retrieval s emb uq)) (plan s emb uq)
  /\ (log (run_retrieval s emb uq) = [] ->
      trace (run_retrieval s emb uq) = plan s emb uq).
Proof.
  pose proof (follows_try_body s emb uq initial) as (done & T & O).
  rewrite quiet_log_iff, EngineFacts.run_retrieval_trace.
  destruct (try_body s emb uq initial) as [st [[]|e]]; simpl in *; subst.
  - destruct O as [-> _]. split; [apply begins_refl | reflexivity].
  - split; [exact O | intros [st' H]; discriminate].
Qed.

(** *** The queries and the evidence of a run *)

Lemma queries_Wrote l : queries (map Wrote l) = [].
Proof. induction l as [|x l IH]; [reflexivity | exact IH]. Qed.

Lemma sentences_Wrote l : sentences (map Wrote l) = l.
Proof. induction l as [|x l IH]; [reflexivity | simpl; now rewrite IH]. Qed.

Lemma queries_file_events s rows :
  queries (flat_map (file_events s) rows)
  = map (fun res => file_entities_query (f_path res)) rows.
Proof.
  induction rows as [|res rows IH]; [reflexivity|].
  simpl. rewrite EngineFacts.queries_app, queries_Wrote, IH. reflexivity.
Qed.

Lemma sentences_file_events s rows :
  sentences (flat_map (file_events s) rows)
  = flat_map (fun res =>
                summary_text res
                :: listing_text res
                     (Cypher.file_entities_results s (f_path res)))
             rows.
Proof.
  induction rows as [|res rows IH]; [reflexivity|].
  simpl. rewrite EngineFacts.sentences_app, sentences_Wrote, IH. reflexivity.
Qed.

(** Without paths the file query of stage 5 would find nothing. *)
Lemma file_context_results_no_paths s : Cypher.file_context_results s [] = [].
Proof.
  unfold file_context_results.
  induction (nodes s) as [|n ns IH]; [reflexivity|]. simpl.
  assert (H : in_list (path n) [] || in_list (file_path n) [] = false)
    by (destruct (path n), (file_path n); reflexivity).
  rewrite H, andb_false_r. exact IH.
Qed.

Lemma queries_wrote l : queries (wrote l) = [].
Proof. apply queries_Wrote. Qed.

Lemma sentences_wrote l : sentences (wrote l) = texts l.
Proof. apply sentences_Wrote. Qed.

Lemma queries_plan s emb uq : queries (plan s emb uq) = query_plan s emb uq.
Proof.
  unfold plan, query_plan. rewrite !EngineFacts.queries_app.
  f_equal; [unfold vector_events; simpl; now rewrite queries_wrote|].
  f_equal.
  { unfold traversal_events. destruct (entity_results s emb); [reflexivity|].
    simpl. now rewrite queries_wrote. }
  f_equal.
  { unfold path_events. destruct (2 <=? List.length (entity_results s emb));
      [|reflexivity].
    cbn [queries flat_map app]. now rewrite queries_wrote. }
  f_equal.
  { unfold keyword_events. destruct (Keywords.extract_keywords uq);
      [reflexivity|].
    rewrite EngineFacts.queries_app. cbn [queries flat_map app].
    now rewrite !queries_wrote. }
  unfold file_context_events, file_rows.
  destruct (file_paths_of (entity_results s emb)); [reflexivity|].
  cbn [queries flat_map app]. now rewrite queries_file_events.
Qed.

Lemma sentences_plan s emb uq :
  sentences (plan s emb uq) = evidence_plan s emb uq.
Proof.
  unfold plan, evidence_plan. rewrite !EngineFacts.sentences_app.
  f_equal; [unfold vector_events, vector_evidence; simpl;
            now rewrite sentences_wrote|].
  f_equal.
  { unfold traversal_events, traversal_evidence.
    destruct (entity_results s emb); [reflexivity|].
    simpl. now rewrite sentences_wrote. }
  f_equal.
  { unfold path_events, path_evidence, path_rows.
    destruct (2 <=? List.length (entity_results s emb)); [|reflexivity].
    cbn [sentences flat_map app]. now rewrite sentences_wrote. }
  f_equal.
  { unfold keyword_events, keyword_evidence.
    destruct (Keywords.extract_keywords uq); [reflexivity|].
    rewrite EngineFacts.sentences_app. cbn [sentences flat_map app].
    now rewrite !sentences_wrote. }
  unfold file_context_events, file_evidence, file_rows.
  destruct (file_paths_of (entity_results s emb));
    [now rewrite file_context_results_no_paths|].
  cbn [sentences flat_map app]. now rewrite sentences_file_events.
Qed.

Lemma run_context_sentences s emb uq :
  context (run_retrieval s emb uq) = sentences (trace (run_retrieval s emb uq)).
Proof.
  rewrite EngineFacts.run_retrieval_context, EngineFacts.run_retrieval_trace.
  apply EngineFacts.try_body_context.
Qed.

(** The queries of a run.  Whatever fails, the queries sent are an
    opening part of a fixed list: the two index queries; the traversal
    query if the vector stage found something; the path query if it found
    two results or more; the two keyword queries if the question has a
    keyword; and, if some result has a file path, the file query followed
    by one query for each file it returns.  A run that logs no error
    sends all of them.  So a run sends at most seven queries and one for
    each file row. *)
Theorem queries_follow_plan s emb uq :
  begins (queries (trace (run_retrieval s emb uq))) (query_plan s emb uq)
  /\ (log (run_retrieval s emb uq) = [] ->
      queries (trace (run_retrieval s emb uq)) = query_plan s emb uq)
  /\ List.length (queries (trace (run_retrieval s emb uq)))
     <= 7 + List.length (file_rows s (entity_results s emb)).
Proof.
  destruct (run_follows_plan s emb uq) as [Hb Hq].
  assert (Hbq : begins (queries (trace (run_retrieval s emb uq)))
                       (query_plan s emb uq)).
  { rewrite <- queries_plan. now apply begins_flat_map. }
  split; [exact Hbq|]. split.
  - intros Hlog. now rewrite (Hq Hlog), queries_plan.
  - apply begins_length in Hbq. etransitivity; [exact Hbq|].
    unfold query_plan. rewrite !length_app.
    destruct (entity_results s emb) as [|r1 [|r2 er]];
      destruct (Keywords.extract_keywords uq);
      destruct (file_paths_of _); simpl; rewrite ?length_map; lia.
Qed.

(** On the example store the run logs nothing and sends eight queries. *)
Lemma queries_follow_plan_witness :
  queries (trace (run_retrieval Fixtures.config_store Fixtures.embedding
                                "explain parseConfig"))
  = query_plan Fixtures.config_store Fixtures.embedding "explain parseConfig".
Proof.
  apply (proj1 (proj2 (queries_follow_plan Fixtures.config_store
                                           Fixtures.embedding
                                           "explain parseConfig"))).
  reflexivity.
Defined.

(** The evidence of a run.  Whatever fails, the evidence gathered is an
    opening part of the planned evidence: the sentences of the vector
    results, then those of the traversal, of the paths, of the keyword
    search by name, of the keyword search by description, and of the
    files, a summary and at most one listing for each.  A run that logs
    no error gathers all of it and returns it assembled. *)
Theorem evidence_follows_plan s emb uq :
  begins (context (run_retrieval s emb uq)) (evidence_plan s emb uq)
  /\ (log (run_retrieval s emb uq) = [] ->
      context (run_retrieval s emb uq) = evidence_plan s emb uq
      /\ retrieve_graph_context s emb uq
         = assemble (evidence_plan s emb uq)).
Proof.
  destruct (run_follows_plan s emb uq) as [Hb Hq].
  unfold retrieve_graph_context. rewrite run_context_sentences.
  rewrite <- sentences_plan. split; [now apply begins_flat_map|].
  intros Hlog. now rewrite (Hq Hlog).
Qed.

Lemma evidence_follows_plan_witness :
  retrieve_graph_context Fixtures.config_store Fixtures.embedding
                         "explain parseConfig"
  = assemble (evidence_plan Fixtures.config_store Fixtures.embedding
                            "explain parseConfig").
Proof.
  apply (proj2 (evidence_follows_plan Fixtures.config_store Fixtures.embedding
                                      "explain parseConfig")).
  reflexivity.
Defined.

(** *** The size of the evidence *)

Lemma texts_length l : List.length (texts l) <= List.length l.
Proof.
  induction l as [|[t|] l IH]; simpl; lia.
Qed.

Lemma distinct_length rows : List.length (distinct rows) <= List.length rows.
Proof.
  induction rows as [|r rows IH]; simpl; [lia|].
  pose proof (filter_length_le (fun r' => negb (row_eqb r r')) (distinct rows)).
  lia.
Qed.

Lemma concat_length_le {A} n (l : list (list A)) :
  Forall (fun x => List.length x <= n) l ->
  List.length (concat l) <= n * List.length l.
Proof.
  induction 1 as [|x l Hx _ IH]; simpl; [lia|]. rewrite length_app. lia.
Qed.

Lemma listing_text_length res file_entities :
  List.length (listing_text res file_entities) <= 1.
Proof.
  unfold listing_text. destruct (flat_map child_entry file_entities); simpl; lia.
Qed.

Lemma file_evidence_length s er :
  List.length (file_evidence s er) <= 2 * List.length (file_rows s er).
Proof.
  unfold file_evidence. induction (file_rows s er) as [|res rows IH]; simpl; [lia|].
  rewrite length_app.
  pose proof (listing_text_length res
                (Cypher.file_entities_results s (f_path res))).
  lia.
Qed.

Lemma vector_rows_bounded s emb :
  index_bounded s -> List.length (entity_results s emb) <= 10.
Proof.
  intros Hb. unfold entity_results, Cypher.function_results, Cypher.file_results.
  rewrite length_app, !CypherFacts.order_by_length, !length_map.
  pose proof (Hb "function_index" 5 emb).
  pose proof (Hb "file_index" 5 emb).
  pose proof (filter_length_le
                (fun hit => above_min_score (snd hit)
                            && is_not_null (file_path (fst hit)))
                (queryNodes s "function_index" 5 emb)).
  pose proof (filter_length_le (fun hit => above_min_score (snd hit))
                               (queryNodes s "file_index" 5 emb)).
  lia.
Qed.

Lemma path_rows_bounded s er :
  keeps_contract s -> List.length (path_rows s er) <= 12.
Proof.
  intros Hc. unfold path_rows, Cypher.path_results.
  etransitivity; [apply distinct_length|]. rewrite length_map.
  set (kept := shortest_paths s _ _).
  assert (Hk : Forall (fun p => List.length p <= 4) kept).
  { apply Forall_forall. intros p Hp.
    apply CypherFacts.shortest_paths_candidates in Hp
      as (a & b & _ & _ & _ & _ & Hin).
    destruct (Hc a b 3 p Hin) as (_ & _ & Hlen). unfold path_length in Hlen. lia. }
  apply concat_length_le in Hk.
  pose proof (CypherFacts.shortest_paths_length
                s (nth 0 (top_names er) None) (nth 1 (top_names er) None)).
  unfold kept, Path in *. lia.
Qed.

(** The evidence is bounded stage by stage: one sentence for each vector
    result, at most 20 for the traversal, one for each row of the path
    query, at most 10 for the keyword searches, and at most two for each
    file row.  With an index that returns no more neighbours than asked
    for and a path procedure that keeps its contract, that is at most 52
    sentences and two for each file row; the file query itself has no
    limit. *)
Theorem evidence_size s emb uq :
  List.length (context (run_retrieval s emb uq))
  <= List.length (entity_results s emb) + 20
     + List.length (path_rows s (entity_results s emb)) + 10
     + 2 * List.length (file_rows s (entity_results s emb))
  /\ (index_bounded s -> keeps_contract s ->
      List.length (context (run_retrieval s emb uq))
      <= 52 + 2 * List.length (file_rows s (entity_results s emb))).
Proof.
  assert (H : List.length (context (run_retrieval s emb uq))
              <= List.length (entity_results s emb) + 20
                 + List.length (path_rows s (entity_results s emb)) + 10
                 + 2 * List.length (file_rows s (entity_results s emb))).
  { destruct (run_follows_plan s emb uq) as [Hb _].
    rewrite run_context_sentences.
    apply (begins_flat_map (fun ev => match ev with
                                      | Sent _ => []
                                      | Wrote sentence => [sentence]
                                      end)) in Hb.
    apply begins_length in Hb. fold (sentences (plan s emb uq)) in Hb.
    rewrite sentences_plan in Hb.
    etransitivity; [exact Hb|]. unfold evidence_plan. rewrite !length_app.
    set (er := entity_results s emb).
    assert (Hv : List.length (vector_evidence er) <= List.length er).
    { unfold vector_evidence. etransitivity; [apply texts_length|].
      now rewrite length_map. }
    assert (Ht : List.length (traversal_evidence s er) <= 20).
    { unfold traversal_evidence. destruct er; [simpl; lia|].
      etransitivity; [apply texts_length|]. rewrite length_map.
      apply firstn_le_length. }
    assert (Hp : List.length (path_evidence s er)
                 <= List.length (path_rows s er)).
    { unfold path_evidence. destruct (2 <=? List.length er); [|simpl; lia].
      etransitivity; [apply texts_length|]. now rewrite length_map. }
    assert (Hk : List.length (keyword_evidence s uq) <= 10).
    { unfold keyword_evidence. destruct (Keywords.extract_keywords uq);
        [simpl; lia|].
      rewrite length_app.
      pose proof (texts_length (map name_text (Cypher.name_results s (s0 :: l)))).
      pose proof (texts_length (map desc_text (Cypher.desc_results s (s0 :: l)))).
      rewrite length_map in *.
      pose proof (firstn_le_length 5
                    (map (fun n => entity_row n (file_path n))
                         (filter (keyword_hit name (s0 :: l)) (nodes s)))).
      pose proof (firstn_le_length 5
                    (map (fun n => entity_row n (file_path n))
                         (filter (keyword_hit description (s0 :: l)) (nodes s)))).
      unfold Cypher.name_results, Cypher.desc_results, keyword_results in *.
      lia. }
    pose proof (file_evidence_length s er). lia. }
  split; [exact H|]. intros Hi Hc.
  pose proof (vector_rows_bounded s emb Hi).
  pose proof (path_rows_bounded s (entity_results s emb) Hc). lia.
Qed.

Lemma session_index_bounded ns rels index faults :
  index_bounded (Reference.session ns rels index faults).
Proof. intros index_name k e. simpl. apply firstn_le_length. Qed.

Lemma evidence_size_witness :
  List.length (context (run_retrieval Fixtures.config_store Fixtures.embedding
                                      "explain parseConfig"))
  <= 52 + 2 * List.length (file_rows Fixtures.config_store
                              (entity_results Fixtures.config_store
                                              Fixtures.embedding)).
Proof.
  apply (proj2 (evidence_size Fixtures.config_store Fixtures.embedding
                              "explain parseConfig")).
  - apply session_index_bounded.
  - apply ReferenceFacts.session_keeps_contract.
Defined.

End PlanFacts.


Module ServiceFacts.
Import Py Graph Engine Api Service.

Lemma handler_never_200 e : status (handle_exception e) <> 200.
Proof.
  destruct (ApiFacts.handle_exception_envelope e) as (_ & Hin & _).
  intros H. rewrite H in Hin. simpl in Hin. intuition discriminate.
Qed.

(** *** When the chat endpoint answers *)

(** A chat request whose body could be read is answered with status 200
    exactly when it has a non-empty query, the connection to the store
    is there, the embedding provider returns a non-empty vector, no
    message among the last five of the history has a null role, and the
    generative model answers the prompt.  Nothing else is asked of the
    store: the outcome of its queries plays no part. *)
Theorem chat_answers_iff env data :
  status (serve env (PostChat (Ret data))) = 200 <->
  exists user_query session emb context text,
    query data = Some user_query /\ user_query <> ""
    /\ driver env = Connected session
    /\ provider env user_query = Ret emb /\ emb <> []
    /\ conversation_context env (history data) = Ret context
    /\ generate env context user_query
                (retrieve_graph_context session emb user_query) = Ret text.
Proof.
  unfold serve, chat_with_graph, get_neo4j_driver. simpl. split.
  - destruct (query data) as [[|c q]|]; simpl; try discriminate.
    destruct (driver env) as [session| |] eqn:Hd; simpl;
      try (intros H; first [discriminate H | now apply handler_never_200 in H]).
    destruct (provider env (String c q)) as [[|x v]|e] eqn:Hp; simpl;
      try discriminate; try (intros H; first [discriminate H | now apply handler_never_200 in H]).
    destruct (conversation_context env (history data)) as [ctx|e] eqn:Hc;
      simpl; try (intros H; first [discriminate H | now apply handler_never_200 in H]).
    destruct (generate env ctx (String c q) _) as [text|e] eqn:Hg; simpl;
      try (intros H; first [discriminate H | now apply handler_never_200 in H]).
    intros _. exists (String c q), session, (x :: v), ctx, text.
    repeat split; try assumption; try reflexivity; discriminate.
  - intros (uq & session & emb & ctx & text & Hq & Hne & Hd & Hp & He & Hc & Hg).
    rewrite Hq. destruct uq as [|c q]; [contradiction|]. simpl.
    rewrite Hd. simpl. rewrite Hp. simpl.
    destruct emb as [|x v]; [contradiction|]. rewrite Hc. simpl.
    simpl in Hg. rewrite Hg. reflexivity.
Qed.

Lemma chat_answers_iff_witness :
  status (serve Fixtures.working_env
                (PostChat (Ret (mkData (Some "explain parseConfig") []))))
  = 200.
Proof.
  apply (proj2 (chat_answers_iff
                  Fixtures.working_env
                  (mkData (Some "explain parseConfig") []))).
  exists "explain parseConfig", Fixtures.config_store, Fixtures.embedding,
         "", "parseConfig parses the file.".
  repeat split; discriminate.
Defined.

(** *** A store that fails *)

Lemma first_query_down s emb uq e :
  fault s function_query = Some e ->
  retrieve_graph_context s emb uq = NO_CONTEXT.
Proof.
  intros H. unfold retrieve_graph_context, run_retrieval, try_body,
              vector_stage, bind, run.
  rewrite H. reflexivity.
Qed.

Lemma conversation_context_with_driver env d h :
  conversation_context (with_driver env d) h = conversation_context env h.
Proof.
  unfold conversation_context. destruct h as [|m l]; [reflexivity|]. f_equal.
  induction (last_five (m :: l)) as [|msg rest IH]; [reflexivity|].
  simpl. destruct (role msg); [|reflexivity]. now rewrite IH.
Qed.

(** Once the service holds a driver, the queries of the retrieval
    cannot fail a chat request.  If the generative model answers whatever
    prompt it gets, the status of the answer is the same whatever the
    store behind the driver returns or fails; and when that store fails
    the first query of the retrieval, a request answered with status 200
    carries the sentinel as its context.  It is the connection that
    fails a request: when no driver can be had, a request with a query
    is answered by the handler of [ConnectionError], with status 500. *)
Theorem chat_survives_query_failure env request_json s :
  ((forall context user_query graph_context,
       exists text, generate env context user_query graph_context = Ret text) ->
   forall s',
     status (serve (with_driver env (Connected s)) (PostChat request_json))
     = status (serve (with_driver env (Connected s')) (PostChat request_json)))
  /\ (forall e,
         fault s function_query = Some e ->
         status (serve (with_driver env (Connected s)) (PostChat request_json))
         = 200 ->
         nth_error (body (serve (with_driver env (Connected s))
                                (PostChat request_json))) 1
         = Some ("context_used", JString NO_CONTEXT))
  /\ (forall d data,
         (forall session, d <> Connected session) ->
         request_json = Ret data ->
         truthy (query data) = true ->
         serve (with_driver env d) (PostChat request_json)
         = handle_db_connection_error
         /\ status (serve (with_driver env d) (PostChat request_json)) = 500).
Proof.
  unfold serve, chat_with_graph, get_neo4j_driver,
    Embedding.generate_embeddings.
  split; [|split].
  3:{ intros d data Hd -> Hq. cbn [bind with_driver driver].
      rewrite Hq. cbn [negb].
      destruct d as [session| |];
        [exfalso; now apply (Hd session) | split; reflexivity
        | split; reflexivity]. }
  - intros Hgen s'.
    destruct request_json as [data|e]; [|reflexivity].
    cbn [bind with_driver driver provider generate].
    destruct (query data) as [[|c q]|]; try reflexivity.
    cbn [truthy negb Py.str bind].
    destruct (provider env (String c q)) as [[|x v]|e];
      cbn [bind snd]; try reflexivity.
    rewrite !conversation_context_with_driver.
    destruct (conversation_context env (history data)) as [ctx|e];
      cbn [bind]; [|reflexivity].
    destruct (Hgen ctx (String c q)
                   (retrieve_graph_context s (x :: v) (String c q)))
      as [t1 ->].
    destruct (Hgen ctx (String c q)
                   (retrieve_graph_context s' (x :: v) (String c q)))
      as [t2 ->].
    reflexivity.
  - intros e Hf.
    destruct request_json as [data|e0];
      [|intros H; now apply handler_never_200 in H].
    cbn [bind with_driver driver provider generate].
    destruct (query data) as [[|c q]|]; try (intros H; discriminate H).
    cbn [truthy negb Py.str bind].
    destruct (provider env (String c q)) as [[|x v]|e0];
      cbn [bind snd];
      try (intros H; first [discriminate H | now apply handler_never_200 in H]).
    rewrite !conversation_context_with_driver.
    destruct (conversation_context env (history data)) as [ctx|e0];
      cbn [bind];
      try (intros H; first [discriminate H | now apply handler_never_200 in H]).
    destruct (generate env ctx _ _) as [text|e0]; cbn [bind];
      try (intros H; first [discriminate H | now apply handler_never_200 in H]).
    intros _. now rewrite (first_query_down s (x :: v) (String c q) e Hf).
Qed.

(** The example store when it fails the first query: the chat still
    answers, with the sentinel as context. *)
Lemma chat_survives_query_failure_witness :
  nth_error
    (body (serve (with_driver Fixtures.working_env
                              (Connected Fixtures.config_store_all_down))
                 (PostChat (Ret (mkData (Some "explain parseConfig") [])))))
    1
  = Some ("context_used", JString NO_CONTEXT).
Proof.
  apply (proj1 (proj2 (chat_survives_query_failure
                         Fixtures.working_env
                         (Ret (mkData (Some "explain parseConfig") []))
                         Fixtures.config_store_all_down))
           (Neo4jError "store is down")).
  - reflexivity.
  - reflexivity.
Defined.

(** *** The history in the prompt *)

Lemma conversation_lines_well_formed env msgs :
  Forall (fun msg => role msg <> None) msgs ->
  conversation_lines env msgs = Ret (history_lines env msgs).
Proof.
  induction 1 as [|msg msgs Hr _ IH]; [reflexivity|]. simpl.
  unfold history_line. destruct (role msg) as [r|]; [|contradiction].
  rewrite IH. simpl. f_equal. rewrite PyFacts.app_assoc_str. f_equal. simpl.
  do 2 f_equal. now rewrite PyFacts.app_assoc_str.
Qed.

Lemma conversation_lines_malformed env msgs :
  Exists (fun msg => role msg = None) msgs ->
  exists e, conversation_lines env msgs = Raise e.
Proof.
  induction 1 as [msg msgs Hr | msg msgs _ [e IH]]; simpl.
  - rewrite Hr. now eexists.
  - destruct (role msg); [|now eexists]. rewrite IH. now eexists.
Qed.

Lemma last_five_app older h :
  5 <= List.length h -> last_five (older ++ h)%list = last_five h.
Proof.
  intros Hlen. unfold last_five. rewrite length_app, skipn_app.
  rewrite skipn_all2 by lia. simpl. f_equal. lia.
Qed.

(** Only the last five messages of the history reach the prompt, in their
    order: whatever stands before them, messages with a null role
    included, changes nothing.  With a role in each of those five (or
    fewer) the context is the heading followed by one line for each; a
    message among them whose role is null makes the request fail. *)
Theorem history_window env older h :
  (exists dropped, h = (dropped ++ last_five h)%list)
  /\ List.length (last_five h) = Nat.min 5 (List.length h)
  /\ (5 <= List.length h ->
      conversation_context env (older ++ h)%list = conversation_context env h)
  /\ (h <> [] -> Forall (fun msg => role msg <> None) (last_five h) ->
      conversation_context env h
      = Ret ("Previous conversation:" ++ nl
             ++ history_lines env (last_five h)))
  /\ (Exists (fun msg => role msg = None) (last_five h) ->
      exists e, conversation_context env h = Raise e).
Proof.
  split; [|split; [|split; [|split]]].
  - exists (firstn (List.length h - 5) h). unfold last_five.
    now rewrite firstn_skipn.
  - unfold last_five. rewrite length_skipn. lia.
  - intros Hlen. unfold conversation_context.
    rewrite (last_five_app older h Hlen).
    destruct h as [|m l]; [simpl in Hlen; lia|].
    now destruct (older ++ m :: l)%list eqn:E;
      [apply app_eq_nil in E as [_ E]; discriminate|].
  - intros Hne Hwf. unfold conversation_context.
    destruct h as [|m l]; [contradiction|].
    now rewrite (conversation_lines_well_formed env _ Hwf).
  - intros Hex. unfold conversation_context.
    destruct h as [|m l]; [inversion Hex|].
    destruct (conversation_lines_malformed env _ Hex) as [e ->]. now exists e.
Qed.

(** Seven messages, the first with a null role: the prompt holds the last
    five and the request does not fail. *)
Lemma history_window_witness :
  conversation_context
    Fixtures.working_env
    ([mkMessage None (Some "lost"); mkMessage (Some "user") (Some "two")]
     ++ [mkMessage (Some "user") (Some "three");
         mkMessage (Some "assistant") (Some "four");
         mkMessage (Some "user") (Some "five");
         mkMessage (Some "assistant") (Some "six");
         mkMessage (Some "user") (Some "seven")])%list
  = conversation_context
      Fixtures.working_env
      [mkMessage (Some "user") (Some "three");
       mkMessage (Some "assistant") (Some "four");
       mkMessage (Some "user") (Some "five");
       mkMessage (Some "assistant") (Some "six");
       mkMessage (Some "user") (Some "seven")].
Proof.
  apply (proj1 (proj2 (proj2 (history_window Fixtures.working_env _ _)))).
  simpl. lia.
Defined.

(** *** The health check *)

(** [health_check] never lets an exception out.  It answers 200 exactly
    when the connection is there, its check passes and the embedding
    provider answers; 500 exactly when the connection is there and its
    check raises something other than [ConnectionError]; 503 in every
    other case. *)
Theorem health_check_status env :
  exists r,
    health_check env = Ret r
    /\ (status r = 200 <->
        (exists session, driver env = Connected session)
        /\ verify_connectivity env = None
        /\ exists values, provider env "health check test" = Ret values)
    /\ (status r = 500 <->
        (exists session, driver env = Connected session)
        /\ exists e, verify_connectivity env = Some e
                     /\ forall message, e <> ConnectionError message)
    /\ (status r = 200 \/ status r = 503 \/ status r = 500).
Proof.
  unfold health_check, get_neo4j_driver.
  destruct (driver env) as [session| |]; simpl.
  - destruct (verify_connectivity env) as [e|]; simpl.
    + destruct e as [m|m|r c|c d|t].
      2:{ eexists. split; [reflexivity|]. simpl. split; [|split].
          - split; [discriminate | intros (_ & H & _); discriminate H].
          - split; [discriminate|]. intros (_ & e & He & Hne).
            inversion He; subst. exfalso. now apply (Hne m).
          - tauto. }
      all: eexists; (split; [reflexivity|]); simpl; (split; [|split]);
        [split; [discriminate | intros (_ & H & _); discriminate H]
        |split; [intros _; split; [now eexists|]; eexists;
                 split; [reflexivity | discriminate]
                | reflexivity]
        |tauto].
    + destruct (provider env "health check test") as [values|ve]; simpl;
        eexists; (split; [reflexivity|]); simpl; (split; [|split]);
        try tauto.
      * split; [intros _; repeat split; now eexists | reflexivity].
      * split; [discriminate | intros (_ & e & He & _); discriminate He].
      * split; [discriminate | intros (_ & _ & v & H); discriminate H].
      * split; [discriminate | intros (_ & e & He & _); discriminate He].
  - eexists. split; [reflexivity|]. simpl. split; [|split]; try tauto.
    + split; [discriminate | intros ([s H] & _); discriminate H].
    + split; [discriminate | intros ([s H] & _); discriminate H].
  - eexists. split; [reflexivity|]. simpl. split; [|split]; try tauto.
    + split; [discriminate | intros ([s H] & _); discriminate H].
    + split; [discriminate | intros ([s H] & _); discriminate H].
Qed.

(** *** The error handlers *)

(** An exception that leaves a view is answered 400 or 404 only when it
    is the HTTP error of that code, and 500 otherwise; and unless it is
    an HTTP 400 or a Google API error, the answer is one of three fixed
    ones: what the exception says is not shown. *)
Theorem handler_dispatch e :
  (status (handle_exception e) = 400 <-> exists d, e = HTTPException 400 d)
  /\ (status (handle_exception e) = 404 <-> exists d, e = HTTPException 404 d)
  /\ (status (handle_exception e) = 400 \/ status (handle_exception e) = 404
      \/ status (handle_exception e) = 500)
  /\ ((forall d, e <> HTTPException 400 d) ->
      (forall reason code, e <> GoogleAPIError reason code) ->
      handle_exception e = handle_not_found
      \/ handle_exception e = handle_db_connection_error
      \/ handle_exception e = handle_generic_error).
Proof.
  destruct e as [m|m|r c|code d|t]; simpl;
    try (split; [|split; [|split]];
         [split; [discriminate | intros [d' H]; discriminate H]
         |split; [discriminate | intros [d' H]; discriminate H]
         |tauto
         |intros H1 H2; try tauto; exfalso; now apply (H2 r c)]).
  destruct (code =? 400) eqn:E4.
  - apply Nat.eqb_eq in E4. subst code. simpl. split; [|split; [|split]].
    + split; [intros _; now exists d | reflexivity].
    + split; [discriminate | intros [d' H]; discriminate H].
    + tauto.
    + intros H1 _. exfalso. now apply (H1 d).
  - destruct (code =? 404) eqn:E5.
    + apply Nat.eqb_eq in E5. subst code. simpl. split; [|split; [|split]].
      * split; [discriminate | intros [d' H]; discriminate H].
      * split; [intros _; now exists d | reflexivity].
      * tauto.
      * tauto.
    + apply Nat.eqb_neq in E4, E5. simpl. split; [|split; [|split]].
      * split; [discriminate | intros [d' H]; congruence].
      * split; [discriminate | intros [d' H]; congruence].
      * tauto.
      * tauto.
Qed.

(** A request with a method the route does not allow is answered 500. *)
Lemma handler_dispatch_witness :
  handle_exception (HTTPException 405 "Method Not Allowed")
  = handle_not_found
  \/ handle_exception (HTTPException 405 "Method Not Allowed")
     = handle_db_connection_error
  \/ handle_exception (HTTPException 405 "Method Not Allowed")
     = handle_generic_error.
Proof.
  apply (proj2 (proj2 (proj2 (handler_dispatch
                                (HTTPException 405 "Method Not Allowed")))));
    discriminate.
Defined.

(** *** Clearing the database *)

(** [clear_database] is not atomic.  Run on a store, it answers what
    the endpoint answers; after an answer with status 200 the store is
    empty; the store is untouched when there is no connection or the
    deletion of the relationships fails; and when the deletion of the
    nodes fails, the relationships are gone, the nodes remain, and the
    answer, if there is one, has status 500. *)
Theorem clear_database_steps env store :
  snd (Database.clear_database env store) = Api.clear_database env
  /\ (forall r, snd (Database.clear_database env store) = Ret r ->
                status r = 200 ->
                fst (Database.clear_database env store) = ([], []))
  /\ ((forall session, driver env <> Connected session)
      \/ delete_relationships env <> None ->
      fst (Database.clear_database env store) = store)
  /\ ((exists session, driver env = Connected session) ->
      delete_relationships env = None -> delete_nodes env <> None ->
      fst (Database.clear_database env store) = (fst store, [])
      /\ forall r, snd (Database.clear_database env store) = Ret r ->
                   status r = 500).
Proof.
  unfold Database.clear_database, Database.attempt, Database.bind,
    Database.lift, Database.run, Database.ret,
    Database.delete_all_relationships, Database.delete_all_nodes,
    Api.clear_database, get_neo4j_driver.
  destruct (driver env) as [session| |] eqn:Hd; simpl.
  - destruct (delete_relationships env) as [e1|] eqn:H1; simpl.
    + split; [now destruct e1|]. split; [|split].
      * intros r Hr Hs. destruct e1; inversion Hr; subst; discriminate Hs.
      * intros _. now destruct e1.
      * intros _ H. discriminate H.
    + destruct (delete_nodes env) as [e2|] eqn:H2; simpl.
      * split; [now destruct e2|]. split; [|split].
        -- intros r Hr Hs. destruct e2; inversion Hr; subst; discriminate Hs.
        -- intros [H|H]; [exfalso; now apply (H session) | contradiction].
        -- intros _ _ _. split; [now destruct e2|].
           intros r Hr. destruct e2; inversion Hr; subst; reflexivity.
      * split; [reflexivity|]. split; [|split].
        -- reflexivity.
        -- intros [H|H]; [exfalso; now apply (H session) | contradiction].
        -- intros _ _ H. contradiction.
  - split; [reflexivity|]. split; [|split].
    + intros r Hr. discriminate Hr.
    + reflexivity.
    + intros [s H]. discriminate H.
  - split; [reflexivity|]. split; [|split].
    + intros r Hr. discriminate Hr.
    + reflexivity.
    + intros [s H]. discriminate H.
Qed.

(** The example store when the second deletion fails: the two
    relationships are gone, the three nodes are still there. *)
Lemma clear_database_steps_witness :
  fst (Database.clear_database
         Fixtures.nodes_stay_env
         ([Fixtures.parseConfig; Fixtures.loadFile; Fixtures.config_py],
          Fixtures.config_rels))
  = ([Fixtures.parseConfig; Fixtures.loadFile; Fixtures.config_py], []).
Proof.
  apply (proj2 (proj2 (proj2 (clear_database_steps
                                Fixtures.nodes_stay_env
                                ([Fixtures.parseConfig; Fixtures.loadFile;
                                  Fixtures.config_py],
                                 Fixtures.config_rels))))).
  - now exists Fixtures.config_store.
  - reflexivity.
  - discriminate.
Defined.

End ServiceFacts.


Module AdminFacts.
Import Py Graph Admin.

(** *** Start-up *)

(** The service starts exactly when the five environment variables are
    set to non-empty values and Vertex AI and its models load; in every
    other case the process exits before it serves a request. *)
Theorem startup_requires_configuration env vertex :
  startup env vertex = Serves <->
  truthy (GCP_PROJECT_ID env) = true /\ truthy (GCP_REGION env) = true
  /\ truthy (NEO4J_URI env) = true /\ truthy (NEO4J_USERNAME env) = true
  /\ truthy (NEO4J_PASSWORD env) = true /\ vertex = None.
Proof.
  unfold startup.
  destruct (truthy (GCP_PROJECT_ID env)), (truthy (GCP_REGION env)),
    (truthy (NEO4J_URI env)), (truthy (NEO4J_USERNAME env)),
    (truthy (NEO4J_PASSWORD env)); simpl;
    try (split; [discriminate | intuition discriminate]).
  destruct vertex as [[]|]; split; try discriminate; try tauto;
    intuition discriminate.
Qed.

(** An empty value counts as missing. *)
Lemma startup_requires_configuration_witness :
  startup (mkEnviron (Some "project") (Some "us-central1")
                     (Some "neo4j+s://db") (Some "neo4j") (Some "secret"))
          None = Serves.
Proof.
  apply (proj2 (startup_requires_configuration _ _)).
  repeat split.
Defined.

(** *** The vector indexes *)

Lemma managed_name ix :
  managed ix = true <->
  index_name ix = "file_index" \/ index_name ix = "function_index".
Proof.
  unfold managed, managed_names. simpl. rewrite !orb_true_iff, !String.eqb_eq.
  intuition discriminate.
Qed.

Lemma drop_index_In name catalog catalog' x :
  drop_index name catalog = Ret catalog' ->
  (In x catalog' <-> In x catalog /\ index_name x <> name).
Proof.
  unfold drop_index. destruct (existsb _ catalog); [|discriminate].
  intros H. inversion H; subst. rewrite filter_In, negb_true_iff.
  split; intros [H1 H2]; (split; [exact H1|]).
  - apply String.eqb_neq in H2. congruence.
  - apply String.eqb_neq. congruence.
Qed.

(** Whatever fails, dropping the indexes found touches managed names
    only. *)
Lemma drop_all_unmanaged f existing : forall catalog x,
  Forall (fun ix => managed ix = true) existing ->
  managed x = false ->
  (In x (fst (drop_all f existing catalog)) <-> In x catalog).
Proof.
  induction existing as [|ix rest IH]; intros catalog x Hm Hx; simpl;
    [tauto|].
  inversion Hm as [|? ? Hix Hrest]; subst.
  destruct (index_name ix) as [|c n] eqn:En; [now apply IH|].
  destruct (failing f (DropIndex (String c n))); [simpl; tauto|].
  destruct (drop_index (String c n) catalog) as [catalog'|e] eqn:Hd;
    [|simpl; tauto].
  rewrite (IH catalog' x Hrest Hx), (drop_index_In _ _ _ x Hd).
  split; [tauto|]. intros Hin. split; [exact Hin|]. intros Heq.
  assert (managed x = true); [|congruence].
  apply managed_name. rewrite Heq, <- En. now apply managed_name.
Qed.

Lemma create_if_not_exists_In ix catalog x :
  In x (create_if_not_exists ix catalog) <->
  In x catalog \/ (x = ix /\ existsb (blocks ix) catalog = false).
Proof.
  unfold create_if_not_exists. destruct (existsb (blocks ix) catalog).
  - split; [tauto | intros [H|[_ H]]; [exact H | discriminate]].
  - rewrite in_app_iff. simpl. intuition.
Qed.

Lemma create_all_In f wanted : forall catalog x,
  In x (fst (create_all f wanted catalog)) -> In x catalog \/ In x wanted.
Proof.
  induction wanted as [|ix rest IH]; intros catalog x; simpl; [tauto|].
  destruct (failing f (CreateIndex (index_name ix))); [simpl; tauto|].
  intros H. apply IH in H as [H|H]; [|tauto].
  apply create_if_not_exists_In in H. destruct H as [H|[-> _]]; auto.
Qed.

Lemma create_all_keeps f wanted : forall catalog x,
  In x catalog -> In x (fst (create_all f wanted catalog)).
Proof.
  induction wanted as [|ix rest IH]; intros catalog x Hin; simpl; [exact Hin|].
  destruct (failing f (CreateIndex (index_name ix))); [exact Hin|].
  apply IH, create_if_not_exists_In. now left.
Qed.

Lemma show_indexes_managed catalog :
  Forall (fun ix => managed ix = true) (show_indexes catalog).
Proof. apply Forall_forall. intros ix H. now apply filter_In in H. Qed.

(** Whatever fails, [create_vector_indexes] neither removes nor adds an
    index under another name than its two: the indexes of other names
    after the call are those before it. *)
Theorem other_indexes_untouched f catalog x :
  managed x = false ->
  (In x (fst (create_vector_indexes f catalog)) <-> In x catalog).
Proof.
  intros Hx. unfold create_vector_indexes.
  assert (Hdrop : In x (fst match failing f ShowIndexes with
                            | Some e => (catalog, Some e)
                            | None => drop_all f (show_indexes catalog) catalog
                            end) <-> In x catalog).
  { destruct (failing f ShowIndexes); [simpl; tauto|].
    apply drop_all_unmanaged; [apply show_indexes_managed | exact Hx]. }
  destruct (session_fault f) as [[]|]; try (simpl; tauto).
  cbv zeta.
  set (dropped := match failing f ShowIndexes with
                  | Some e => (catalog, Some e)
                  | None => drop_all f (show_indexes catalog) catalog
                  end) in *.
  assert (Hc : In x (fst (create_all f index_creation_queries (fst dropped)))
               <-> In x catalog).
  { rewrite <- Hdrop. split; [|apply create_all_keeps].
    intros H. apply create_all_In in H as [H|H]; [exact H|].
    simpl in H. destruct H as [<-|[<-|[]]]; discriminate Hx. }
  destruct (create_all f index_creation_queries (fst dropped))
    as [catalog' [[]|]]; exact Hc.
Qed.

(** With the check failing and a stale [file_index] in place, the index
    of another name is still there afterwards. *)
Lemma other_indexes_untouched_witness :
  In AdminFixtures.name_lookup
     (fst (create_vector_indexes AdminFixtures.check_fails
                                 AdminFixtures.stale_catalog)).
Proof.
  apply (proj2 (other_indexes_untouched AdminFixtures.check_fails
                  AdminFixtures.stale_catalog AdminFixtures.name_lookup
                  eq_refl)).
  simpl. tauto.
Defined.


Lemma create_all_healthy f wanted :
  (forall c, failing f c = None) ->
  forall catalog,
  create_all f wanted catalog =
  (fold_left (fun c ix => create_if_not_exists ix c) wanted catalog, None).
Proof.
  intros Hf. induction wanted as [|ix rest IH]; intros catalog; simpl;
    [reflexivity|].
  now rewrite Hf, IH.
Qed.

Lemma drop_all_healthy f :
  (forall c, failing f c = None) ->
  forall existing catalog,
  Forall (fun ix => managed ix = true) existing ->
  NoDup (map index_name existing) ->
  (forall ix, In ix existing ->
     exists old, In old catalog /\ index_name old = index_name ix) ->
  snd (drop_all f existing catalog) = None /\
  forall x, In x (fst (drop_all f existing catalog)) <->
            In x catalog /\ ~ In (index_name x) (map index_name existing).
Proof.
  intros Hf. induction existing as [|ix rest IH]; intros catalog Hm Hnd Hex.
  - simpl. split; [reflexivity | tauto].
  - inversion Hm as [|? ? Hix Hrest]; subst.
    inversion Hnd as [|? ? Hnotin Hnd']; subst.
    cbn [drop_all].
    destruct (index_name ix) as [|c n] eqn:En.
    { apply managed_name in Hix. rewrite En in Hix.
      destruct Hix; discriminate. }
    rewrite Hf.
    destruct (drop_index (String c n) catalog) as [catalog'|e] eqn:Hd.
    2:{ exfalso. unfold drop_index in Hd.
        destruct (Hex ix (or_introl eq_refl)) as (old & Hin & Hname).
        assert (Ht : existsb (fun i => String.eqb (String c n) (index_name i))
                       catalog = true).
        { apply existsb_exists. exists old. split; [exact Hin|].
          apply String.eqb_eq. congruence. }
        rewrite Ht in Hd. discriminate. }
    destruct (IH catalog' Hrest Hnd') as [Hsnd Hfst].
    { intros i Hi. destruct (Hex i (or_intror Hi)) as (old & Hin & Hname).
      exists old. split; [|exact Hname].
      apply (drop_index_In _ _ _ old Hd). split; [exact Hin|].
      intros Heq. apply Hnotin. rewrite <- Heq, Hname.
      now apply in_map. }
    split; [exact Hsnd|]. intros x. rewrite Hfst, (drop_index_In _ _ _ x Hd).
    cbn [map In]. rewrite En. intuition congruence.
Qed.

Lemma NoDup_show_indexes catalog :
  NoDup (map index_name catalog) ->
  NoDup (map index_name (show_indexes catalog)).
Proof.
  unfold show_indexes. induction catalog as [|ix rest IH]; intros Hnd;
    simpl; [constructor|].
  inversion Hnd as [|? ? Hnotin Hnd']; subst.
  destruct (managed ix); [|now apply IH].
  simpl. constructor; [|now apply IH].
  intros Hin. apply Hnotin. apply in_map_iff in Hin as (y & Hy & Hin).
  apply filter_In in Hin. apply in_map_iff. exists y. tauto.
Qed.

(** With nothing failing, the indexes found are dropped: what is left
    are the indexes of other names. *)
Lemma dropped_healthy f catalog :
  (forall c, failing f c = None) ->
  NoDup (map index_name catalog) ->
  snd (drop_all f (show_indexes catalog) catalog) = None /\
  forall x, In x (fst (drop_all f (show_indexes catalog) catalog)) <->
            In x catalog /\ managed x = false.
Proof.
  intros Hf Hnd.
  destruct (drop_all_healthy f Hf (show_indexes catalog) catalog)
    as [Hsnd Hfst].
  - apply show_indexes_managed.
  - now apply NoDup_show_indexes.
  - intros ix Hin. exists ix. apply filter_In in Hin. tauto.
  - split; [exact Hsnd|]. intros x. rewrite Hfst.
    split; intros [Hin Hx]; (split; [exact Hin|]).
    + destruct (managed x) eqn:Hmx; [|reflexivity]. exfalso. apply Hx.
      apply in_map. apply filter_In. tauto.
    + intros Hi. apply in_map_iff in Hi as (y & Hy & Hi).
      apply filter_In in Hi as [_ Hi].
      assert (managed x = true); [|congruence].
      apply managed_name. rewrite <- Hy. now apply managed_name.
Qed.

(** When the database fails nothing, the two indexes are rebuilt: no
    warning or error is logged; an index named [file_index] or
    [function_index] afterwards is the one the code asks for, with 3072
    dimensions, whatever index of that name was there before; and each
    of the two is there, unless an index of another name is already on
    the same label and property (then [IF NOT EXISTS] keeps the code's
    index from being created, and nothing is logged). *)
Theorem indexes_rebuilt f catalog :
  session_fault f = None ->
  (forall c, failing f c = None) ->
  NoDup (map index_name catalog) ->
  snd (create_vector_indexes f catalog) = [] /\
  (forall x, In x (fst (create_vector_indexes f catalog)) ->
     managed x = true ->
     In x index_creation_queries /\ dimensions x = desired_dim) /\
  (forall w, In w index_creation_queries ->
     In w (fst (create_vector_indexes f catalog)) \/
     exists old, In old catalog /\ managed old = false
                 /\ same_schema old w = true).
Proof.
  intros Hs Hf Hnd.
  destruct (dropped_healthy f catalog Hf Hnd) as [Hsnd Hfst].
  unfold create_vector_indexes. rewrite Hs, Hf. cbv zeta.
  rewrite Hsnd, create_all_healthy by exact Hf.
  set (kept := fst (drop_all f (show_indexes catalog) catalog)) in *.
  cbn [fst snd fold_left index_creation_queries].
  set (file := mkIndex "file_index" "VECTOR" "File" "embedding" desired_dim
                       "cosine").
  set (func := mkIndex "function_index" "VECTOR" "Function" "embedding"
                       desired_dim "cosine").
  assert (Hblock : forall w old, In w [file; func] -> In old kept ->
            blocks w old = true ->
            In old catalog /\ managed old = false
            /\ same_schema old w = true).
  { intros w old Hw Hold Hb. apply Hfst in Hold as [Hin Hm].
    split; [exact Hin|]. split; [exact Hm|].
    unfold blocks in Hb. apply orb_true_iff in Hb as [Hb|Hb]; [|exact Hb].
    apply String.eqb_eq in Hb.
    assert (managed old = true); [|congruence].
    apply managed_name. rewrite Hb.
    destruct Hw as [<-|[<-|[]]]; simpl; tauto. }
  split; [reflexivity|]. split.
  - intros x Hin Hm.
    assert (Hx : In x [file; func]).
    { apply create_if_not_exists_In in Hin as [Hin|[-> _]];
        [|simpl; tauto].
      apply create_if_not_exists_In in Hin as [Hin|[-> _]];
        [|simpl; tauto].
      apply Hfst in Hin. destruct Hin; congruence. }
    split; [exact Hx|]. destruct Hx as [<-|[<-|[]]]; reflexivity.
  - intros w Hw.
    destruct (existsb (blocks file) kept) eqn:Hbf.
    + apply existsb_exists in Hbf as (old & Hold & Hb).
      destruct Hw as [<-|[<-|[]]].
      * right. exists old. apply (Hblock file); simpl; tauto.
      * destruct (existsb (blocks func) (create_if_not_exists file kept))
          eqn:Hbg.
        -- apply existsb_exists in Hbg as (old' & Hold' & Hb').
           apply create_if_not_exists_In in Hold' as [Hold'|[-> _]].
           ++ right. exists old'. apply (Hblock func); simpl; tauto.
           ++ discriminate Hb'.
        -- left. apply create_if_not_exists_In. right. tauto.
    + destruct Hw as [<-|[<-|[]]].
      * left. apply create_if_not_exists_In. left.
        apply create_if_not_exists_In. right. tauto.
      * destruct (existsb (blocks func) (create_if_not_exists file kept))
          eqn:Hbg.
        -- apply existsb_exists in Hbg as (old' & Hold' & Hb').
           apply create_if_not_exists_In in Hold' as [Hold'|[-> _]].
           ++ right. exists old'. apply (Hblock func); simpl; tauto.
           ++ discriminate Hb'.
        -- left. apply create_if_not_exists_In. right. tauto.
Qed.

(** On a database with a [file_index] of 768 dimensions: afterwards the
    index has 3072. *)
Lemma indexes_rebuilt_witness :
  snd (create_vector_indexes no_faults AdminFixtures.stale_catalog) = [] /\
  (forall x,
     In x (fst (create_vector_indexes no_faults AdminFixtures.stale_catalog)) ->
     managed x = true ->
     In x index_creation_queries /\ dimensions x = desired_dim) /\
  (forall w, In w index_creation_queries ->
     In w (fst (create_vector_indexes no_faults AdminFixtures.stale_catalog)) \/
     exists old, In old AdminFixtures.stale_catalog /\ managed old = false
                 /\ same_schema old w = true).
Proof.
  apply (indexes_rebuilt no_faults AdminFixtures.stale_catalog).
  - reflexivity.
  - intros c. reflexivity.
  - repeat constructor; simpl; intuition discriminate.
Defined.



(** *** The connection *)

(** A call that finds no driver stored returns one exactly when the
    driver is made and the connection check passes; whatever else
    happens reaches the caller as a [ConnectionError]; and the driver is
    stored as soon as it is made, whether the check passes or not. *)
Theorem first_connection b p :
  neo4j_driver p = None ->
  (forall d, snd (get_neo4j_driver b p) = Ret d <->
             driver_open b = inr d /\ connectivity b = None) /\
  (forall e, snd (get_neo4j_driver b p) = Raise e ->
             exists message, e = ConnectionError message) /\
  (forall d, neo4j_driver (fst (get_neo4j_driver b p)) = Some d <->
             driver_open b = inr d).
Proof.
  intros Hp. unfold get_neo4j_driver. rewrite Hp.
  destruct (driver_open b) as [failure|d0].
  - cbn [fst snd]. split; [|split].
    + intros d. split; [discriminate | intros [H _]; discriminate].
    + intros e H. destruct failure; inversion H; eexists; reflexivity.
    + intros d. split; discriminate.
  - destruct (connectivity b) as [failure|]; cbn [fst snd neo4j_driver].
    + split; [|split].
      * intros d. split; [discriminate | intros [_ H]; discriminate].
      * intros e H. destruct failure; inversion H; eexists; reflexivity.
      * intros d. split; congruence.
    + split; [|split].
      * intros d. split; [intros H; inversion H; tauto
                         | intros [H _]; congruence].
      * discriminate.
      * intros d. split; congruence.
Qed.

Lemma first_connection_witness :
  snd (get_neo4j_driver (AdminFixtures.reachable Fixtures.config_store)
                        AdminFixtures.fresh_process)
  = Ret Fixtures.config_store.
Proof.
  apply (proj1 (first_connection
                  (AdminFixtures.reachable Fixtures.config_store)
                  AdminFixtures.fresh_process eq_refl)
               Fixtures.config_store).
  split; reflexivity.
Defined.

(** Once a driver is stored, every later call returns it and does
    nothing else, whatever the state of the database: nothing is opened,
    checked, created or logged. *)
Lemma driver_is_singleton b p d :
  neo4j_driver p = Some d ->
  get_neo4j_driver b p = (p, Ret d).
Proof. intros Hp. unfold get_neo4j_driver. now rewrite Hp. Qed.

(** A driver whose connection check fails is stored all the same: the
    first call raises, every later call returns that driver without
    checking it, whatever the state of the database then, and the
    indexes are rebuilt neither by the first call nor by a later one. *)
Theorem unchecked_driver_reused b p d failure :
  neo4j_driver p = None ->
  driver_open b = inr d ->
  connectivity b = Some failure ->
  (exists message,
     snd (get_neo4j_driver b p) = Raise (ConnectionError message)) /\
  catalog (fst (get_neo4j_driver b p)) = catalog p /\
  forall later,
    get_neo4j_driver later (fst (get_neo4j_driver b p)) =
    (fst (get_neo4j_driver b p), Ret d).
Proof.
  intros Hp Hopen Hcheck.
  assert (Hfirst : get_neo4j_driver b p =
            (mkProcess (Some d) (catalog p)
                       (notes p ++ [fst (connection_error failure)])%list,
             Raise (snd (connection_error failure)))).
  { unfold get_neo4j_driver. now rewrite Hp, Hopen, Hcheck. }
  rewrite Hfirst. cbn [fst snd catalog]. split; [|split].
  - destruct failure; eexists; reflexivity.
  - reflexivity.
  - intros later. now apply driver_is_singleton.
Qed.

(** The database is down at the first request and up at the second: the
    second request gets the driver, and [file_index] keeps its 768
    dimensions. *)
Lemma unchecked_driver_reused_witness :
  (exists message,
     snd (get_neo4j_driver (AdminFixtures.unreachable Fixtures.config_store)
                           AdminFixtures.fresh_process)
     = Raise (ConnectionError message)) /\
  catalog (fst (get_neo4j_driver
                  (AdminFixtures.unreachable Fixtures.config_store)
                  AdminFixtures.fresh_process))
  = AdminFixtures.stale_catalog /\
  forall later,
    get_neo4j_driver later
      (fst (get_neo4j_driver
              (AdminFixtures.unreachable Fixtures.config_store)
              AdminFixtures.fresh_process)) =
    (fst (get_neo4j_driver
            (AdminFixtures.unreachable Fixtures.config_store)
            AdminFixtures.fresh_process),
     Ret Fixtures.config_store).
Proof.
  apply (unchecked_driver_reused
           (AdminFixtures.unreachable Fixtures.config_store)
           AdminFixtures.fresh_process Fixtures.config_store
           (ServiceUnavailable "connection refused")
           eq_refl eq_refl eq_refl).
Defined.

End AdminFacts.
